(** * Twenty CRM MCP server: OAuth provider, authorization page, desktop proxy
      and field normalization.

    A shallow embedding of [oauth/provider.js], [oauth/authorize-page.js],
    the desktop proxy and the field-normalization contract, with the
    properties the specification states about them.

    Conventions.
    - A JavaScript string is a [string]; the five characters the page
      escapes are ASCII, so the byte-wise view is exact for them.
    - A value that may be [undefined] is an [option]; truthiness of a
      string is "present and non-empty".
    - Times and time-to-live settings are integers ([Z]): [Date.now()] is
      in milliseconds, token expiry in seconds.
    - [Map] objects keyed by strings are [gmap string _].
    - What the runtime supplies ([Date.now()], [crypto.randomBytes], the
      answer of [fetch], the remote MCP client) is an explicit argument of
      the function that consumes it.
    - Console logging has no effect on any result and is left out. *)

From Stdlib Require Import ZArith Ascii String List Bool Lia.
From stdpp Require Import gmap strings list fin_maps.

Local Open Scope Z_scope.

(** ** JavaScript helpers *)

Module JS.

(** The double-quote character, as a one-character string. *)
Definition dq : string := String (ascii_of_nat 34) EmptyString.

Definition is_empty (s : string) : bool :=
  match s with EmptyString => true | String _ _ => false end.

(** Truthiness of a possibly-undefined string. *)
Definition truthy (o : option string) : bool :=
  match o with
  | Some s => negb (is_empty s)
  | None => false
  end.

(** [a || d] for a possibly-undefined string [a] and a string [d]. *)
Definition or_else (o : option string) (d : string) : string :=
  match o with
  | Some s => if is_empty s then d else s
  | None => d
  end.

(** [n || d] for a possibly-undefined number. *)
Definition num_or_else (o : option Z) (d : Z) : Z :=
  match o with
  | Some n => if n =? 0 then d else n
  | None => d
  end.

(** [Array.prototype.join] on an array of strings. *)
Fixpoint join (sep : string) (l : list string) : string :=
  match l with
  | [] => EmptyString
  | [x] => x
  | x :: rest => x +:+ sep +:+ join sep rest
  end.

(** [String.prototype.replace] with a global one-character pattern and a
    replacement free of [$]: every occurrence of [c] becomes [r]. *)
Fixpoint replaceAll (c : ascii) (r : string) (s : string) : string :=
  match s with
  | EmptyString => EmptyString
  | String a rest =>
      if Ascii.eqb a c then r +:+ replaceAll c r rest
      else String a (replaceAll c r rest)
  end.

(** What an [async] function or a handler does: it returns or it throws. *)
Inductive outcome (A : Type) : Type :=
| Returned (a : A)
| Thrown (message : string).
Arguments Returned {A} a.
Arguments Thrown {A} message.

End JS.
Import JS.

(** ** The HTML authorization page ([oauth/authorize-page.js]) *)

Module AuthorizePage.

(** The chain of global replacements in [escapeHtml], ampersand first. *)
Definition fiveReplacements (s : string) : string :=
  replaceAll "'" "&#39;"
    (replaceAll (ascii_of_nat 34) "&quot;"
      (replaceAll ">" "&gt;"
        (replaceAll "<" "&lt;"
          (replaceAll "&" "&amp;" s)))).

(** [escapeHtml(str)]: the empty string for a falsy argument, else the
    replacements applied to it. *)
Definition escapeHtml (str : option string) : string :=
  match str with
  | Some s => if is_empty s then EmptyString else fiveReplacements s
  | None => EmptyString
  end.

(** The fixed text of the template literal, cut at its six
    interpolations. *)

Definition page_head : string :=
  "<!DOCTYPE html>
<html lang=" +:+ dq +:+ "en" +:+ dq +:+ ">
<head>
  <meta charset=" +:+ dq +:+ "UTF-8" +:+ dq +:+ ">
  <meta name=" +:+ dq +:+ "viewport" +:+ dq +:+ " content=" +:+ dq +:+ "width=device-width, initial-scale=1.0" +:+ dq +:+ ">
  <title>Authorize - Twenty CRM MCP Server</title>
  <style>
    * {
      box-sizing: border-box;
      margin: 0;
      padding: 0;
    }
    body {
      font-family: -apple-system, BlinkMacSystemFont, 'Segoe UI', Roboto, Oxygen, Ubuntu, sans-serif;
      background: linear-gradient(135deg, #1a1a2e 0%, #16213e 100%);
      min-height: 100vh;
      display: flex;
      align-items: center;
      justify-content: center;
      padding: 20px;
    }
    .container {
      background: white;
      border-radius: 12px;
      box-shadow: 0 4px 24px rgba(0, 0, 0, 0.3);
      padding: 40px;
      max-width: 440px;
      width: 100%;
    }
    .logo {
      text-align: center;
      margin-bottom: 24px;
    }
    .logo h1 {
      color: #1a1a2e;
      font-size: 24px;
      font-weight: 600;
    }
    .logo span {
      color: #667eea;
    }
    .client-info {
      background: #f8f9fa;
      border-radius: 8px;
      padding: 16px;
      margin-bottom: 24px;
    }
    .client-info h2 {
      font-size: 14px;
      color: #666;
      font-weight: 500;
      margin-bottom: 8px;
    }
    .client-info .name {
      font-size: 18px;
      color: #1a1a2e;
      font-weight: 600;
    }
    .scopes {
      margin-bottom: 24px;
    }
    .scopes h3 {
      font-size: 14px;
      color: #666;
      font-weight: 500;
      margin-bottom: 12px;
    }
    .scopes ul {
      list-style: none;
    }
    .scopes li {
      background: #e8f4fd;
      color: #1a73e8;
      padding: 8px 12px;
      border-radius: 6px;
      font-size: 14px;
      margin-bottom: 6px;
      display: inline-block;
      margin-right: 6px;
    }
    .form-group {
      margin-bottom: 20px;
    }
    .form-group label {
      display: block;
      font-size: 14px;
      color: #333;
      font-weight: 500;
      margin-bottom: 8px;
    }
    .form-group input {
      width: 100%;
      padding: 12px 16px;
      border: 2px solid #e1e4e8;
      border-radius: 8px;
      font-size: 14px;
      transition: border-color 0.2s;
    }
    .form-group input:focus {
      outline: none;
      border-color: #667eea;
    }
    .form-group .hint {
      font-size: 12px;
      color: #666;
      margin-top: 6px;
    }
    .error {
      background: #fee2e2;
      color: #dc2626;
      padding: 12px 16px;
      border-radius: 8px;
      font-size: 14px;
      margin-bottom: 20px;
    }
    .buttons {
      display: flex;
      gap: 12px;
    }
    .btn {
      flex: 1;
      padding: 12px 20px;
      border-radius: 8px;
      font-size: 14px;
      font-weight: 600;
      cursor: pointer;
      transition: all 0.2s;
      border: none;
    }
    .btn-primary {
      background: linear-gradient(135deg, #667eea 0%, #764ba2 100%);
      color: white;
    }
    .btn-primary:hover {
      transform: translateY(-1px);
      box-shadow: 0 4px 12px rgba(102, 126, 234, 0.4);
    }
    .btn-secondary {
      background: #f1f3f4;
      color: #5f6368;
    }
    .btn-secondary:hover {
      background: #e8eaed;
    }
    .info {
      margin-top: 24px;
      padding-top: 20px;
      border-top: 1px solid #e1e4e8;
      font-size: 12px;
      color: #666;
      text-align: center;
    }
    .info a {
      color: #667eea;
      text-decoration: none;
    }
    .info a:hover {
      text-decoration: underline;
    }
  </style>
</head>
<body>
  <div class=" +:+ dq +:+ "container" +:+ dq +:+ ">
    <div class=" +:+ dq +:+ "logo" +:+ dq +:+ ">
      <h1>Twenty <span>CRM</span> MCP Server</h1>
    </div>

    <div class=" +:+ dq +:+ "client-info" +:+ dq +:+ ">
      <h2>Application requesting access</h2>
      <div class=" +:+ dq +:+ "name" +:+ dq +:+ ">".

Definition page_after_clientName : string :=
  "</div>
    </div>

    <div class=" +:+ dq +:+ "scopes" +:+ dq +:+ ">
      <h3>Requested permissions</h3>
      <ul>".

Definition page_after_scopeList : string :=
  "</ul>
    </div>

    ".

Definition page_after_errorHtml : string :=
  "

    <form method=" +:+ dq +:+ "POST" +:+ dq +:+ " action=" +:+ dq +:+ "/authorize/submit" +:+ dq +:+ ">
      <input type=" +:+ dq +:+ "hidden" +:+ dq +:+ " name=" +:+ dq +:+ "state" +:+ dq +:+ " value=" +:+ dq.

Definition page_after_state : string :=
  dq +:+ ">
      <input type=" +:+ dq +:+ "hidden" +:+ dq +:+ " name=" +:+ dq +:+ "redirect_uri" +:+ dq +:+ " value=" +:+ dq.

Definition page_after_redirectUri : string :=
  dq +:+ ">
      <input type=" +:+ dq +:+ "hidden" +:+ dq +:+ " name=" +:+ dq +:+ "code_challenge" +:+ dq +:+ " value=" +:+ dq.

Definition page_tail : string :=
  dq +:+ ">

      <div class=" +:+ dq +:+ "form-group" +:+ dq +:+ ">
        <label for=" +:+ dq +:+ "api_key" +:+ dq +:+ ">Your Twenty CRM API Key</label>
        <input
          type=" +:+ dq +:+ "password" +:+ dq +:+ "
          id=" +:+ dq +:+ "api_key" +:+ dq +:+ "
          name=" +:+ dq +:+ "api_key" +:+ dq +:+ "
          placeholder=" +:+ dq +:+ "Enter your Twenty CRM API key" +:+ dq +:+ "
          required
          autocomplete=" +:+ dq +:+ "off" +:+ dq +:+ "
        >
        <div class=" +:+ dq +:+ "hint" +:+ dq +:+ ">
          Find your API key in Twenty CRM: Settings &rarr; API &amp; Webhooks
        </div>
      </div>

      <div class=" +:+ dq +:+ "buttons" +:+ dq +:+ ">
        <button type=" +:+ dq +:+ "button" +:+ dq +:+ " class=" +:+ dq +:+ "btn btn-secondary" +:+ dq +:+ " onclick=" +:+ dq +:+ "handleDeny()" +:+ dq +:+ ">Deny</button>
        <button type=" +:+ dq +:+ "submit" +:+ dq +:+ " class=" +:+ dq +:+ "btn btn-primary" +:+ dq +:+ ">Authorize</button>
      </div>
    </form>

    <div class=" +:+ dq +:+ "info" +:+ dq +:+ ">
      Your API key is stored securely and used only to access your Twenty CRM data.
      <br>
      <a href=" +:+ dq +:+ "https://github.com/Limely/twenty-crm-mcp-server" +:+ dq +:+ " target=" +:+ dq +:+ "_blank" +:+ dq +:+ ">Learn more</a>
    </div>
  </div>

  <script>
    function handleDeny() {
      const redirectUri = document.querySelector('input[name=" +:+ dq +:+ "redirect_uri" +:+ dq +:+ "]').value;
      const state = document.querySelector('input[name=" +:+ dq +:+ "state" +:+ dq +:+ "]').value;
      if (redirectUri) {
        const url = new URL(redirectUri);
        url.searchParams.set('error', 'access_denied');
        url.searchParams.set('error_description', 'User denied the authorization request');
        if (state) {
          url.searchParams.set('state', state);
        }
        window.location.href = url.toString();
      }
    }
  </script>
</body>
</html>".

(** The destructured argument of [generateAuthorizePage]. *)
Record PageOptions := {
  clientName : option string;
  scopes : option (list string);
  state : option string;
  redirectUri : option string;
  codeChallenge : option string;
  error : option string
}.

Definition scopeList (o : PageOptions) : string :=
  match scopes o with
  | Some (s :: rest) =>
      join EmptyString
        (map (fun s => "<li>" +:+ escapeHtml (Some s) +:+ "</li>") (s :: rest))
  | _ => "<li>mcp:tools (default)</li>"
  end.

Definition errorHtml (o : PageOptions) : string :=
  if truthy (error o)
  then "<div class=" +:+ dq +:+ "error" +:+ dq +:+ ">" +:+ escapeHtml (error o) +:+ "</div>"
  else EmptyString.

Definition generateAuthorizePage (o : PageOptions) : string :=
  page_head
  +:+ escapeHtml (Some (or_else (clientName o) "Unknown Application"))
  +:+ page_after_clientName
  +:+ scopeList o
  +:+ page_after_scopeList
  +:+ errorHtml o
  +:+ page_after_errorHtml
  +:+ escapeHtml (Some (or_else (state o) EmptyString))
  +:+ page_after_state
  +:+ escapeHtml (Some (or_else (redirectUri o) EmptyString))
  +:+ page_after_redirectUri
  +:+ escapeHtml (Some (or_else (codeChallenge o) EmptyString))
  +:+ page_tail.

(** *** The escaping contract, in the specification's words *)

(** The HTML entity of each of the five characters; any other character
    stands for itself. *)
Definition entity (c : ascii) : string :=
  if Ascii.eqb c "&" then "&amp;"
  else if Ascii.eqb c "<" then "&lt;"
  else if Ascii.eqb c ">" then "&gt;"
  else if Ascii.eqb c (ascii_of_nat 34) then "&quot;"
  else if Ascii.eqb c "'" then "&#39;"
  else String c EmptyString.

(** Every occurrence replaced by its entity, in one pass. *)
Fixpoint substituteEntities (s : string) : string :=
  match s with
  | EmptyString => EmptyString
  | String c rest => entity c +:+ substituteEntities rest
  end.

(** The characters that open or close tags and attribute values. *)
Definition is_markup (c : ascii) : bool :=
  Ascii.eqb c "<" || Ascii.eqb c ">"
  || Ascii.eqb c (ascii_of_nat 34) || Ascii.eqb c "'".

(** The markup characters of a text, in order. *)
Fixpoint markup (s : string) : string :=
  match s with
  | EmptyString => EmptyString
  | String c rest =>
      if is_markup c then String c (markup rest) else markup rest
  end.

(** The same request with every caller-supplied text replaced by a fixed
    harmless one: as many scopes, an error message if there was one. *)
Definition blank (o : PageOptions) : PageOptions :=
  {| clientName := None;
     scopes := map (fun _ => "x") <$> scopes o;
     state := None;
     redirectUri := None;
     codeChallenge := None;
     error := if truthy (error o) then Some "x" else None |}.

End AuthorizePage.

(** ** The OAuth provider ([oauth/provider.js]) *)

Module OAuth.
Import AuthorizePage.

(** *** What the runtime provides *)

(** The WHATWG [URL] class, as far as the provider uses it: the
    constructor throws on a string that is not a URL. *)
Class URLApi := {
  URL : Type;
  newURL : string -> option URL;
  searchParams_set : string -> string -> URL -> URL;
  URL_toString : URL -> string
}.

(** A [fetch] call and its answer. The promise resolves with a response
    of some status or rejects (network failure). *)
Record Request := {
  req_url : string;
  req_method : string;
  req_headers : list (string * string)
}.

Record FetchResponse := { status : Z }.

(** [Response.ok]: the status is in the range 200-299. *)
Definition ok (r : FetchResponse) : bool :=
  (200 <=? status r) && (status r <=? 299).

Definition Fetch : Type := Request -> outcome FetchResponse.

(** *** Records held in the stores *)

Record ClientMetadata := {
  client_name : option string;
  redirect_uris : list string
}.

Record Client := {
  metadata : ClientMetadata;
  client_id : string;
  client_secret : string;
  client_id_issued_at : Z
}.

Record CodeData := {
  code_twentyApiKey : string;
  code_codeChallenge : option string;
  code_redirectUri : string;
  code_state : option string;
  code_scopes : list string;
  code_expiresAt : Z
}.

Record TokenData := {
  tok_clientId : string;
  tok_scopes : list string;
  tok_expiresAt : Z;
  tok_twentyApiKey : string;
  tok_resource : option string
}.

Record RefreshData := {
  rt_clientId : string;
  rt_scopes : list string;
  rt_twentyApiKey : string;
  rt_createdAt : Z
}.

(** The provider object ([this]). *)
Record Provider := {
  twentyBaseUrl : string;
  _clients : gmap string Client;
  _codes : gmap string CodeData;
  _tokens : gmap string TokenData;
  _refreshTokens : gmap string RefreshData;
  accessTokenTTL : Z;
  authCodeTTL : Z;
  refreshTokenTTL : Z
}.

Definition with_clients (f : gmap string Client -> gmap string Client)
    (this : Provider) : Provider :=
  {| twentyBaseUrl := twentyBaseUrl this;
     _clients := f (_clients this);
     _codes := _codes this;
     _tokens := _tokens this;
     _refreshTokens := _refreshTokens this;
     accessTokenTTL := accessTokenTTL this;
     authCodeTTL := authCodeTTL this;
     refreshTokenTTL := refreshTokenTTL this |}.

Definition with_codes (f : gmap string CodeData -> gmap string CodeData)
    (this : Provider) : Provider :=
  {| twentyBaseUrl := twentyBaseUrl this;
     _clients := _clients this;
     _codes := f (_codes this);
     _tokens := _tokens this;
     _refreshTokens := _refreshTokens this;
     accessTokenTTL := accessTokenTTL this;
     authCodeTTL := authCodeTTL this;
     refreshTokenTTL := refreshTokenTTL this |}.

Definition with_tokens (f : gmap string TokenData -> gmap string TokenData)
    (this : Provider) : Provider :=
  {| twentyBaseUrl := twentyBaseUrl this;
     _clients := _clients this;
     _codes := _codes this;
     _tokens := f (_tokens this);
     _refreshTokens := _refreshTokens this;
     accessTokenTTL := accessTokenTTL this;
     authCodeTTL := authCodeTTL this;
     refreshTokenTTL := refreshTokenTTL this |}.

Definition with_refreshTokens
    (f : gmap string RefreshData -> gmap string RefreshData)
    (this : Provider) : Provider :=
  {| twentyBaseUrl := twentyBaseUrl this;
     _clients := _clients this;
     _codes := _codes this;
     _tokens := _tokens this;
     _refreshTokens := f (_refreshTokens this);
     accessTokenTTL := accessTokenTTL this;
     authCodeTTL := authCodeTTL this;
     refreshTokenTTL := refreshTokenTTL this |}.

(** *** Methods run on [this] and either return or throw; what they wrote
    to the stores before throwing stays written. *)

Definition M (A : Type) : Type := Provider -> outcome A * Provider.

Definition ret {A} (a : A) : M A := fun this => (Returned a, this).
Definition throw {A} (message : string) : M A := fun this => (Thrown message, this).
Definition bind {A B} (m : M A) (k : A -> M B) : M B :=
  fun this =>
    match m this with
    | (Returned a, this') => k a this'
    | (Thrown e, this') => (Thrown e, this')
    end.
Definition get : M Provider := fun this => (Returned this, this).
Definition modify (f : Provider -> Provider) : M unit :=
  fun this => (Returned tt, f this).

Declare Scope method_scope.
Delimit Scope method_scope with method.
Notation "x <- m ;; k" := (bind m (fun x => k))
  (at level 100, m at next level, right associativity) : method_scope.
Notation "m ;; k" := (bind m (fun _ => k))
  (at level 100, right associativity) : method_scope.
Local Open Scope method_scope.

(** *** Construction *)

Record Options := {
  opt_twentyBaseUrl : option string;
  opt_accessTokenTTL : option Z;
  opt_authCodeTTL : option Z;
  opt_refreshTokenTTL : option Z
}.

Definition noOptions : Options :=
  {| opt_twentyBaseUrl := None; opt_accessTokenTTL := None;
     opt_authCodeTTL := None; opt_refreshTokenTTL := None |}.

(** [constructor(options)], with [process.env.TWENTY_BASE_URL] as [env]. *)
Definition constructor (options : Options) (env : option string) : Provider :=
  {| twentyBaseUrl :=
       or_else (opt_twentyBaseUrl options) (or_else env "https://api.twenty.com");
     _clients := ∅;
     _codes := ∅;
     _tokens := ∅;
     _refreshTokens := ∅;
     accessTokenTTL := num_or_else (opt_accessTokenTTL options) 3600;
     authCodeTTL := num_or_else (opt_authCodeTTL options) 300;
     refreshTokenTTL := num_or_else (opt_refreshTokenTTL options) (30 * 24 * 3600) |}.

(** *** The client store *)

Definition getClient (clientId : string) : M (option Client) :=
  this <- get ;; ret (_clients this !! clientId).

(** [registerClient]; [clientId] and [clientSecret] are what [generateId]
    and [generateSecret] produced, [dateNow] is [Date.now()]. *)
Definition registerClient (clientMetadata : ClientMetadata)
    (clientId clientSecret : string) (dateNow : Z) : M Client :=
  let now := dateNow / 1000 in
  let client :=
    {| metadata := clientMetadata;
       client_id := clientId;
       client_secret := clientSecret;
       client_id_issued_at := now |} in
  modify (with_clients (insert clientId client)) ;;
  ret client.

(** *** Authorization *)

(** What is written to the express response: a page sent as
    [text/html] with a status, or a redirect. *)
Inductive Response :=
| Html (statusCode : Z) (body : string)
| Redirect (location : string).

Record AuthorizationParams := {
  params_scopes : option (list string);
  params_state : option string;
  params_redirectUri : string;
  params_codeChallenge : string
}.

Definition authorize (client : Client) (params : AuthorizationParams) : M Response :=
  let html := generateAuthorizePage
    {| clientName := Some (or_else (client_name (metadata client)) (client_id client));
       scopes := Some (match params_scopes params with Some l => l | None => [] end);
       state := Some (or_else (params_state params) EmptyString);
       redirectUri := Some (params_redirectUri params);
       codeChallenge := Some (params_codeChallenge params);
       error := None |} in
  ret (Html 200 html).

(** [validateTwentyApiKey]: one GET of the bounded people listing with the
    key as bearer credential; a rejected fetch is caught. *)
Definition validateTwentyApiKey (fetch : Fetch) (apiKey : string) : M bool :=
  this <- get ;;
  match fetch {| req_url := twentyBaseUrl this +:+ "/rest/people?limit=1";
                 req_method := "GET";
                 req_headers := [("Authorization", "Bearer " +:+ apiKey);
                                 ("Content-Type", "application/json")] |} with
  | Returned response => ret (ok response)
  | Thrown _ => ret false
  end.

(** The fields of [req.body]. *)
Record Body := {
  api_key : option string;
  body_state : option string;
  redirect_uri : option string;
  code_challenge : option string
}.

Definition truthy_value (o : option string) : option string :=
  if truthy o then o else None.

(** The record stored under a new authorization code. *)
Definition issuedCode (this : Provider) (req : Body)
    (api_key redirect_uri : string) (dateNow : Z) : CodeData :=
  {| code_twentyApiKey := api_key;
     code_codeChallenge := code_challenge req;
     code_redirectUri := redirect_uri;
     code_state := body_state req;
     code_scopes := ["mcp:tools"];
     code_expiresAt := dateNow + authCodeTTL this * 1000 |}.

Section WithURL.
Context `{URLApi}.

(** [handleAuthorizeSubmit]; [code] is what [generateId] produced and
    [dateNow] is [Date.now()]. *)
Definition handleAuthorizeSubmit (fetch : Fetch) (req : Body)
    (code : string) (dateNow : Z) : M Response :=
  match truthy_value (api_key req), truthy_value (redirect_uri req) with
  | Some api_key, Some redirect_uri =>
      isValid <- validateTwentyApiKey fetch api_key ;;
      if negb isValid then
        ret (Html 400 (generateAuthorizePage
          {| clientName := Some "Unknown";
             scopes := Some [];
             state := Some (or_else (body_state req) EmptyString);
             redirectUri := Some redirect_uri;
             codeChallenge := Some (or_else (code_challenge req) EmptyString);
             error := Some "Invalid API key. Please check your Twenty CRM API key and try again." |}))
      else
        this <- get ;;
        modify (with_codes (insert code
          (issuedCode this req api_key redirect_uri dateNow))) ;;
        match newURL redirect_uri with
        | None => throw "Invalid URL"
        | Some redirectUrl =>
            let redirectUrl := searchParams_set "code" code redirectUrl in
            let redirectUrl :=
              match truthy_value (body_state req) with
              | Some state => searchParams_set "state" state redirectUrl
              | None => redirectUrl
              end in
            ret (Redirect (URL_toString redirectUrl))
        end
  | _, _ =>
      ret (Html 400 (generateAuthorizePage
        {| clientName := Some "Unknown";
           scopes := Some [];
           state := Some (or_else (body_state req) EmptyString);
           redirectUri := Some (or_else (redirect_uri req) EmptyString);
           codeChallenge := Some (or_else (code_challenge req) EmptyString);
           error := Some "API key is required" |}))
  end.

Definition challengeForAuthorizationCode (client : Client)
    (authorizationCode : string) (dateNow : Z) : M (option string) :=
  this <- get ;;
  match _codes this !! authorizationCode with
  | None => throw "Invalid authorization code"
  | Some codeData =>
      if dateNow >? code_expiresAt codeData then
        modify (with_codes (delete authorizationCode)) ;;
        throw "Authorization code expired"
      else ret (code_codeChallenge codeData)
  end.

Record OAuthTokens := {
  access_token : string;
  token_type : string;
  expires_in : Z;
  refresh_token : option string;
  scope : string
}.

(** [exchangeAuthorizationCode]; [dateNow] and [dateNow'] are the two
    readings of [Date.now()], [accessToken] and [refreshToken] the two
    results of [generateToken]. *)
Definition exchangeAuthorizationCode (client : Client)
    (authorizationCode : string) (codeVerifier redirectUri : option string)
    (resource : option URL)
    (dateNow dateNow' : Z) (accessToken refreshToken : string) : M OAuthTokens :=
  this <- get ;;
  match _codes this !! authorizationCode with
  | None => throw "Invalid authorization code"
  | Some codeData =>
      if dateNow >? code_expiresAt codeData then
        modify (with_codes (delete authorizationCode)) ;;
        throw "Authorization code expired"
      else
        modify (with_codes (delete authorizationCode)) ;;
        let now := dateNow' / 1000 in
        let expiresAt := now + accessTokenTTL this in
        modify (with_tokens (insert accessToken
          {| tok_clientId := client_id client;
             tok_scopes := code_scopes codeData;
             tok_expiresAt := expiresAt;
             tok_twentyApiKey := code_twentyApiKey codeData;
             tok_resource := URL_toString <$> resource |})) ;;
        modify (with_refreshTokens (insert refreshToken
          {| rt_clientId := client_id client;
             rt_scopes := code_scopes codeData;
             rt_twentyApiKey := code_twentyApiKey codeData;
             rt_createdAt := now |})) ;;
        ret {| access_token := accessToken;
               token_type := "Bearer";
               expires_in := accessTokenTTL this;
               refresh_token := Some refreshToken;
               scope := join " " (code_scopes codeData) |}
  end.

(** The provider a returning [exchangeAuthorizationCode] leaves: the
    code deleted, the two tokens stored. *)
Definition exchanged (this : Provider) (client : Client) (code : string)
    (d : CodeData) (resource : option URL) (dateNow' : Z)
    (accessToken refreshToken : string) : Provider :=
  with_refreshTokens (insert refreshToken
    {| rt_clientId := client_id client;
       rt_scopes := code_scopes d;
       rt_twentyApiKey := code_twentyApiKey d;
       rt_createdAt := dateNow' / 1000 |})
    (with_tokens (insert accessToken
      {| tok_clientId := client_id client;
         tok_scopes := code_scopes d;
         tok_expiresAt := dateNow' / 1000 + accessTokenTTL this;
         tok_twentyApiKey := code_twentyApiKey d;
         tok_resource := URL_toString <$> resource |})
      (with_codes (delete code) this)).

(** [Array.prototype.includes] on strings. *)
Definition includes (l : list string) (s : string) : bool :=
  existsb (String.eqb s) l.

(** The scopes of a refreshed access token: the requested ones the
    refresh token has, if any were requested, else the refresh token's. *)
Definition effectiveScopes (scopes : option (list string))
    (original : list string) : list string :=
  match scopes with
  | Some (s :: rest) => filter (fun s => includes original s = true) (s :: rest)
  | _ => original
  end.

(** [exchangeRefreshToken]; [scopes] is the optional requested list,
    [dateNow] is [Date.now()] and [accessToken] what [generateToken]
    produced. *)
Definition exchangeRefreshToken (client : Client) (refreshToken : string)
    (scopes : option (list string)) (resource : option URL)
    (dateNow : Z) (accessToken : string) : M OAuthTokens :=
  this <- get ;;
  match _refreshTokens this !! refreshToken with
  | None => throw "Invalid refresh token"
  | Some refreshData =>
      if negb (String.eqb (rt_clientId refreshData) (client_id client)) then
        throw "Refresh token does not belong to this client"
      else
        let now := dateNow / 1000 in
        if now - rt_createdAt refreshData >? refreshTokenTTL this then
          modify (with_refreshTokens (delete refreshToken)) ;;
          throw "Refresh token expired"
        else
          let expiresAt := now + accessTokenTTL this in
          let effectiveScopes := effectiveScopes scopes (rt_scopes refreshData) in
          modify (with_tokens (insert accessToken
            {| tok_clientId := client_id client;
               tok_scopes := effectiveScopes;
               tok_expiresAt := expiresAt;
               tok_twentyApiKey := rt_twentyApiKey refreshData;
               tok_resource := URL_toString <$> resource |})) ;;
          ret {| access_token := accessToken;
                 token_type := "Bearer";
                 expires_in := accessTokenTTL this;
                 refresh_token := None;
                 scope := join " " effectiveScopes |}
  end.

Record AuthInfo := {
  info_token : string;
  info_clientId : string;
  info_scopes : list string;
  info_expiresAt : Z;
  info_resource : option URL;
  info_extra_twentyApiKey : string
}.

Definition verifyAccessToken (token : string) (dateNow : Z) : M AuthInfo :=
  this <- get ;;
  match _tokens this !! token with
  | None => throw "Invalid access token"
  | Some tokenData =>
      let now := dateNow / 1000 in
      if now >? tok_expiresAt tokenData then
        modify (with_tokens (delete token)) ;;
        throw "Access token expired"
      else
        resource <-
          match truthy_value (tok_resource tokenData) with
          | Some r =>
              match newURL r with
              | Some u => ret (Some u)
              | None => throw "Invalid URL"
              end
          | None => ret None
          end ;;
        ret {| info_token := token;
               info_clientId := tok_clientId tokenData;
               info_scopes := tok_scopes tokenData;
               info_expiresAt := tok_expiresAt tokenData;
               info_resource := resource;
               info_extra_twentyApiKey := tok_twentyApiKey tokenData |}
  end.

End WithURL.

Record OAuthTokenRevocationRequest := {
  token : string;
  token_type_hint : option string
}.

Definition hint_allows (hint : option string) (kind : string) : bool :=
  negb (truthy hint) || bool_decide (hint = Some kind).

(** The second half of [revokeToken], reached when the first did not
    return. *)
Definition revokeAsRefreshToken (client : Client)
    (request : OAuthTokenRevocationRequest) : M unit :=
  this <- get ;;
  if hint_allows (token_type_hint request) "refresh_token" then
    match _refreshTokens this !! token request with
    | Some refreshData =>
        if String.eqb (rt_clientId refreshData) (client_id client) then
          modify (with_refreshTokens (delete (token request)))
        else ret tt
    | None => ret tt
    end
  else ret tt.

Definition revokeToken (client : Client)
    (request : OAuthTokenRevocationRequest) : M unit :=
  this <- get ;;
  if hint_allows (token_type_hint request) "access_token" then
    match _tokens this !! token request with
    | Some tokenData =>
        if String.eqb (tok_clientId tokenData) (client_id client) then
          modify (with_tokens (delete (token request)))
        else revokeAsRefreshToken client request
    | None => revokeAsRefreshToken client request
    end
  else revokeAsRefreshToken client request.

(** [getApiKeyForToken] is synchronous and only reads. *)
Definition getApiKeyForToken (this : Provider) (token : string) : option string :=
  truthy_value (tok_twentyApiKey <$> _tokens this !! token).

(** [cleanup]: three sweeps, each deleting the entries past their time. *)
Definition cleanup (dateNow : Z) : M unit :=
  this <- get ;;
  let now := dateNow in
  let nowSeconds := now / 1000 in
  modify (with_codes
    (filter (fun kv => ¬ (now > code_expiresAt kv.2)))) ;;
  modify (with_tokens
    (filter (fun kv => ¬ (nowSeconds > tok_expiresAt kv.2)))) ;;
  modify (with_refreshTokens
    (filter (fun kv => ¬ (nowSeconds - rt_createdAt kv.2 > refreshTokenTTL this)))).

(** *** The life of a provider: constructed once, then any calls *)

Section Lifecycle.
Context `{URLApi}.

Inductive Call :=
| CallRegisterClient (clientMetadata : ClientMetadata)
    (clientId clientSecret : string) (dateNow : Z)
| CallAuthorize (client : Client) (params : AuthorizationParams)
| CallHandleAuthorizeSubmit (fetch : Fetch) (req : Body)
    (code : string) (dateNow : Z)
| CallChallengeForAuthorizationCode (client : Client)
    (authorizationCode : string) (dateNow : Z)
| CallExchangeAuthorizationCode (client : Client)
    (authorizationCode : string) (codeVerifier redirectUri : option string)
    (resource : option URL) (dateNow dateNow' : Z)
    (accessToken refreshToken : string)
| CallExchangeRefreshToken (client : Client) (refreshToken : string)
    (scopes : option (list string)) (resource : option URL)
    (dateNow : Z) (accessToken : string)
| CallVerifyAccessToken (token : string) (dateNow : Z)
| CallRevokeToken (client : Client) (request : OAuthTokenRevocationRequest)
| CallCleanup (dateNow : Z).

(** The provider as the call leaves it, whether it returned or threw. *)
Definition after (c : Call) (this : Provider) : Provider :=
  match c with
  | CallRegisterClient md id sec now => (registerClient md id sec now this).2
  | CallAuthorize client params => (authorize client params this).2
  | CallHandleAuthorizeSubmit fetch req code now =>
      (handleAuthorizeSubmit fetch req code now this).2
  | CallChallengeForAuthorizationCode client code now =>
      (challengeForAuthorizationCode client code now this).2
  | CallExchangeAuthorizationCode client code v r res now now' at_ rt =>
      (exchangeAuthorizationCode client code v r res now now' at_ rt this).2
  | CallExchangeRefreshToken client rt scopes res now at_ =>
      (exchangeRefreshToken client rt scopes res now at_ this).2
  | CallVerifyAccessToken token now => (verifyAccessToken token now this).2
  | CallRevokeToken client request => (revokeToken client request this).2
  | CallCleanup now => (cleanup now this).2
  end.

Inductive reachable : Provider -> Prop :=
| reachable_new options env : reachable (constructor options env)
| reachable_call c this : reachable this -> reachable (after c this).

End Lifecycle.

(** Two providers configured alike. *)
Definition same_settings (p q : Provider) : Prop :=
  (twentyBaseUrl p, authCodeTTL p, accessTokenTTL p, refreshTokenTTL p)
  = (twentyBaseUrl q, authCodeTTL q, accessTokenTTL q, refreshTokenTTL q).

(** Every stored record carries a non-empty CRM API key. *)
Definition keys_bound (this : Provider) : Prop :=
  (forall c d, _codes this !! c = Some d -> is_empty (code_twentyApiKey d) = false)
  /\ (forall t d, _tokens this !! t = Some d -> is_empty (tok_twentyApiKey d) = false)
  /\ (forall t d, _refreshTokens this !! t = Some d ->
        is_empty (rt_twentyApiKey d) = false).

(** A small stand-in for the [URL] class, used to run the provider on
    concrete requests: any non-empty string parses, and the query
    parameters are kept aside and printed after the base. *)
Record SimpleURL := {
  base : string;
  query : list (string * string)
}.

Definition simpleURL_set (k v : string) (u : SimpleURL) : SimpleURL :=
  {| base := base u;
     query := filter (fun kv => kv.1 <> k) (query u) ++ [(k, v)] |}.

Definition simpleURL_toString (u : SimpleURL) : string :=
  base u +:+ "?" +:+ join "&" (map (fun kv => kv.1 +:+ "=" +:+ kv.2) (query u)).

Definition simpleURL : URLApi :=
  {| URL := SimpleURL;
     newURL := fun s =>
       if is_empty s then None else Some {| base := s; query := [] |};
     searchParams_set := simpleURL_set;
     URL_toString := simpleURL_toString |}.

(** *** A worked flow, for running the provider

    One user authorizes with a key the CRM accepts, one client exchanges
    the code; [sample_other] is a second registered client. *)

Definition sample_provider : Provider := constructor noOptions None.

Definition answering (code : Z) : Fetch :=
  fun _ => Returned {| status := code |}.

Definition sample_body : Body :=
  {| api_key := Some "crm-key";
     body_state := Some "xyz";
     redirect_uri := Some "https://client.example/callback";
     code_challenge := Some "challenge" |}.

Definition sample_client : Client :=
  {| metadata := {| client_name := Some "Assistant"; redirect_uris := [] |};
     client_id := "client-a";
     client_secret := "secret-a";
     client_id_issued_at := 0 |}.

Definition sample_other : Client :=
  {| metadata := {| client_name := None; redirect_uris := [] |};
     client_id := "client-b";
     client_secret := "secret-b";
     client_id_issued_at := 0 |}.

(** After the form was submitted at 1 s. *)
Definition sample_authorized : Provider :=
  after (H := simpleURL)
    (CallHandleAuthorizeSubmit (answering 200) sample_body "c0de" 1000)
    sample_provider.

(** After [sample_client] exchanged the code at 2 s. *)
Definition sample_exchanged : Provider :=
  after (H := simpleURL)
    (CallExchangeAuthorizationCode sample_client "c0de" None None None
       2000 2000 "access-1" "refresh-1")
    sample_authorized.

End OAuth.

(** ** The desktop proxy *)

Module DesktopProxy.

(** A value a promise can reject with: an [Error] carrying a message, or
    any other value, known by what [String(value)] gives. *)
Inductive thrown :=
| ErrorObject (message : string)
| OtherValue (asString : string).

Inductive attempt (A : Type) : Type :=
| Fulfilled (a : A)
| Rejected (e : thrown).
Arguments Fulfilled {A} a.
Arguments Rejected {A} e.

Inductive ContentItem :=
| TextContent (text : string)
| OtherContent (json : string).

Record CallToolResult := {
  content : list ContentItem;
  isError : option bool
}.

(** Tool arguments, an object of opaque JSON values. *)
Definition Arguments_ : Type := list (string * string).

Record CallToolParams := {
  name : string;
  arguments : option Arguments_
}.

(** The SDK client connected to the remote server. *)
Record Client := {
  callTool : string -> Arguments_ -> attempt CallToolResult
}.

(** The [TwentyCRMProxy] object. *)
Record TwentyCRMProxy := {
  serverUrl : string;
  apiKey : string;
  remoteClient : option Client
}.

Definition P (A : Type) : Type := TwentyCRMProxy -> attempt A * TwentyCRMProxy.

Definition resolve {A} (a : A) : P A := fun this => (Fulfilled a, this).
Definition reject {A} (e : thrown) : P A := fun this => (Rejected e, this).
Definition await {A B} (p : P A) (k : A -> P B) : P B :=
  fun this =>
    match p this with
    | (Fulfilled a, this') => k a this'
    | (Rejected e, this') => (Rejected e, this')
    end.
(** [try { return await p } catch (error) { return h error }] *)
Definition try_catch {A} (p : P A) (h : thrown -> P A) : P A :=
  fun this =>
    match p this with
    | (Fulfilled a, this') => (Fulfilled a, this')
    | (Rejected e, this') => h e this'
    end.

Section WithRemote.
(** [client.connect(transport)] for a server URL and a bearer key: the
    connected client, or the rejection. *)
Variable connect : string -> string -> attempt Client.

Definition createRemoteClient : P Client :=
  fun this =>
    match connect (serverUrl this) (apiKey this) with
    | Fulfilled client => (Fulfilled client, this)
    | Rejected e => (Rejected e, this)
    end.

Definition getRemoteClient : P Client :=
  fun this =>
    match remoteClient this with
    | Some client => (Fulfilled client, this)
    | None =>
        await createRemoteClient (fun client this' =>
          (Fulfilled client,
           {| serverUrl := serverUrl this'; apiKey := apiKey this';
              remoteClient := Some client |})) this
    end.

Definition callRemoteTool (toolName : string) (args : Arguments_) : P CallToolResult :=
  await getRemoteClient (fun client this => (callTool client toolName args, this)).

Definition errorMessage (error : thrown) : string :=
  match error with
  | ErrorObject message => message
  | OtherValue asString => asString
  end.

(** [args || {}] *)
Definition args_or_empty (params : CallToolParams) : Arguments_ :=
  match arguments params with Some args => args | None => [] end.

(** The handler registered for [CallToolRequestSchema]. *)
Definition callToolHandler (params : CallToolParams) : P CallToolResult :=
  try_catch
    (callRemoteTool (name params) (args_or_empty params))
    (fun error =>
       resolve {| content := [TextContent ("Error: " +:+ errorMessage error)];
                  isError := Some true |}).

End WithRemote.

(** *** Sample remotes, for running the handler *)

Definition failing_client : Client :=
  {| callTool := fun _ _ => Rejected (ErrorObject "HTTP 401: Unauthorized") |}.

Definition echo_client : Client :=
  {| callTool := fun toolName _ =>
       Fulfilled {| content := [TextContent toolName]; isError := None |} |}.

Definition sample_proxy (client : option Client) : TwentyCRMProxy :=
  {| serverUrl := "https://mcp.example/stream";
     apiKey := "crm-key";
     remoteClient := client |}.

Definition sample_params : CallToolParams :=
  {| name := "list_people"; arguments := None |}.

End DesktopProxy.

(** ** Field normalization

    The four normalization methods belong to the adapter server, whose
    source is outside this development; only their tests are at hand.
    They are modelled from the specification's section on field
    normalization, and the tests are replayed on the model below. A
    result of [None] marks an input shape the specification is silent
    about. *)

Module FieldNormalization.

(** A JavaScript value as the tool arguments carry it. *)
#[local] Unset Elimination Schemes.
Inductive value :=
| VUndefined
| VNull
| VBool (b : bool)
| VNum (n : Z)
| VStr (s : string)
| VArr (items : list value)
| VObj (fields : list (string * value)).
#[local] Set Elimination Schemes.

(** Property read: the first binding of the key. *)
Fixpoint get (key : string) (fields : list (string * value)) : option value :=
  match fields with
  | [] => None
  | (k, v) :: rest => if String.eqb k key then Some v else get key rest
  end.

Definition has (key : string) (fields : list (string * value)) : bool :=
  match get key fields with Some _ => true | None => false end.

Definition get_or (key : string) (d : value) (fields : list (string * value)) : value :=
  match get key fields with Some v => v | None => d end.

(** The first of the keys that is present. *)
Fixpoint get_first (keys : list string) (d : value)
    (fields : list (string * value)) : value :=
  match keys with
  | [] => d
  | k :: rest =>
      match get k fields with
      | Some v => v
      | None => get_first rest d fields
      end
  end.

(** All entries converted, or nothing if one of them cannot be. *)
Fixpoint traverse {A B} (f : A -> option B) (l : list A) : option (list B) :=
  match l with
  | [] => Some []
  | x :: rest =>
      match f x, traverse f rest with
      | Some y, Some ys => Some (y :: ys)
      | _, _ => None
      end
  end.

(** [null] for an empty remainder, else the array. *)
Definition null_if_empty (l : list value) : value :=
  match l with [] => VNull | _ => VArr l end.

Section Emails.
(** Modelled from the spec: the address carried by an array entry that is
    not a plain string. The specification says the entry may be an object
    and names no key, so the reading is left open. *)
Variable addressOf : value -> value.

Definition emailAddress (entry : value) : value :=
  match entry with
  | VStr s => VStr s
  | other => addressOf other
  end.

(** Modelled from the spec: [normalizeEmailsValue] of the adapter server.
    A plain string becomes the primary address; of an array the first
    entry's address is primary and the others become [{value}] entries,
    [null] if there are none; an object that has [primaryEmail] is
    returned unchanged. *)
Definition normalizeEmailsValue (v : value) : option value :=
  match v with
  | VStr s =>
      Some (VObj [("primaryEmail", VStr s); ("additionalEmails", VNull)])
  | VArr (first :: rest) =>
      Some (VObj [("primaryEmail", emailAddress first);
                  ("additionalEmails",
                   null_if_empty
                     (map (fun e => VObj [("value", emailAddress e)]) rest))])
  | VObj fields => if has "primaryEmail" fields then Some v else None
  | _ => None
  end.
End Emails.

(** Modelled from the spec: an array entry of a phone list, a string or a
    [{number, countryCode, callingCode}] object; a missing calling or
    country code is the empty string. The triple is number, country code,
    calling code. *)
Definition phoneEntry (entry : value) : option (value * value * value) :=
  match entry with
  | VStr s => Some (VStr s, VStr EmptyString, VStr EmptyString)
  | VObj fields =>
      match get "number" fields with
      | Some n =>
          Some (n, get_or "countryCode" (VStr EmptyString) fields,
                   get_or "callingCode" (VStr EmptyString) fields)
      | None => None
      end
  | _ => None
  end.

Definition phoneObject (p : value * value * value) : value :=
  let '(number, countryCode, callingCode) := p in
  VObj [("number", number); ("countryCode", countryCode);
        ("callingCode", callingCode)].

(** Modelled from the spec: [normalizePhonesValue] of the adapter server. *)
Definition normalizePhonesValue (v : value) : option value :=
  match v with
  | VStr s =>
      Some (VObj [("primaryPhoneNumber", VStr s);
                  ("primaryPhoneCallingCode", VStr EmptyString);
                  ("primaryPhoneCountryCode", VStr EmptyString);
                  ("additionalPhones", VNull)])
  | VArr (first :: rest) =>
      match phoneEntry first, traverse phoneEntry rest with
      | Some (number, countryCode, callingCode), Some others =>
          Some (VObj [("primaryPhoneNumber", number);
                      ("primaryPhoneCallingCode", callingCode);
                      ("primaryPhoneCountryCode", countryCode);
                      ("additionalPhones",
                       null_if_empty (map phoneObject others))])
      | _, _ => None
      end
  | VObj fields => if has "primaryPhoneNumber" fields then Some v else None
  | _ => None
  end.

(** Modelled from the spec: [normalizeAddressValue] of the adapter server.
    An object without [addressStreet1] is read in the standard shape
    ([street1], [street2], [city], [state], [postalCode], [country]) or
    the alternate one ([addressLine1], [addressLine2], [zip]); a key of
    the standard shape wins where both are present. Absent parts are the
    empty string, absent [lat]/[lng] are [null]. *)
Definition normalizeAddressValue (v : value) : option value :=
  match v with
  | VStr s =>
      Some (VObj [("addressStreet1", VStr s);
                  ("addressStreet2", VStr EmptyString);
                  ("addressCity", VStr EmptyString);
                  ("addressState", VStr EmptyString);
                  ("addressPostcode", VStr EmptyString);
                  ("addressCountry", VStr EmptyString);
                  ("addressLat", VNull);
                  ("addressLng", VNull)])
  | VObj fields =>
      if has "addressStreet1" fields then Some v
      else
        Some (VObj
          [("addressStreet1",
            get_first ["street1"; "addressLine1"] (VStr EmptyString) fields);
           ("addressStreet2",
            get_first ["street2"; "addressLine2"] (VStr EmptyString) fields);
           ("addressCity", get_or "city" (VStr EmptyString) fields);
           ("addressState", get_or "state" (VStr EmptyString) fields);
           ("addressPostcode",
            get_first ["postalCode"; "zip"] (VStr EmptyString) fields);
           ("addressCountry", get_or "country" (VStr EmptyString) fields);
           ("addressLat", get_or "lat" VNull fields);
           ("addressLng", get_or "lng" VNull fields)])
  | _ => None
  end.

(** Modelled from the spec: an array entry of a link list, a bare URL
    string (empty label) or a [{url, label}] object. *)
Definition linkEntry (entry : value) : option (value * value) :=
  match entry with
  | VStr s => Some (VStr s, VStr EmptyString)
  | VObj fields =>
      match get "url" fields, get "label" fields with
      | Some url, Some label => Some (url, label)
      | _, _ => None
      end
  | _ => None
  end.

Definition linkObject (p : value * value) : value :=
  VObj [("url", p.1); ("label", p.2)].

(** Modelled from the spec: [normalizeLinksValue] of the adapter server. *)
Definition normalizeLinksValue (v : value) : option value :=
  match v with
  | VStr s =>
      Some (VObj [("primaryLinkUrl", VStr s);
                  ("primaryLinkLabel", VStr EmptyString);
                  ("secondaryLinks", VNull)])
  | VArr (first :: rest) =>
      match linkEntry first, traverse linkEntry rest with
      | Some (url, label), Some others =>
          Some (VObj [("primaryLinkUrl", url);
                      ("primaryLinkLabel", label);
                      ("secondaryLinks", null_if_empty (map linkObject others))])
      | _, _ => None
      end
  | VObj fields => if has "primaryLinkUrl" fields then Some v else None
  | _ => None
  end.

(** Applying a normalization to the result of a normalization. *)
Definition twice (f : value -> option value) (v : value) : option value :=
  match f v with
  | Some r => f r
  | None => None
  end.

(** A normalization is stable when it leaves its own results alone. *)
Definition stable (f : value -> option value) : Prop :=
  forall v r, f v = Some r -> f r = Some r.

End FieldNormalization.


(** ** Identifiers, secrets and tokens ([generateId], [generateSecret],
    [generateToken])

    [crypto.randomBytes] is the entropy source, an argument; the text
    encodings of the resulting buffer are Node's [hex] and [base64url]. *)

From Stdlib Require Strings.Byte.

Module Entropy.

Definition hexDigits : string := "0123456789abcdef".

Definition base64urlAlphabet : string :=
  "ABCDEFGHIJKLMNOPQRSTUVWXYZabcdefghijklmnopqrstuvwxyz0123456789-_".

(** The [n]-th character of an alphabet. *)
Definition charAt (alphabet : string) (n : N) : ascii :=
  match String.get (N.to_nat n) alphabet with
  | Some c => c
  | None => "000"%char
  end.

(** [buffer.toString('hex')]: two lowercase digits per byte. *)
Fixpoint toStringHex (buffer : list Byte.byte) : string :=
  match buffer with
  | [] => EmptyString
  | b :: rest =>
      let n := Byte.to_N b in
      String (charAt hexDigits (n / 16))
        (String (charAt hexDigits (n mod 16)) (toStringHex rest))
  end%N.

(** [buffer.toString('base64url')]: four characters per three bytes,
    three or two characters for a last group of two or one byte, no
    padding. *)
Fixpoint toStringBase64url (buffer : list Byte.byte) : string :=
  match buffer with
  | [] => EmptyString
  | [a] =>
      let n := Byte.to_N a in
      String (charAt base64urlAlphabet (n / 4))
        (String (charAt base64urlAlphabet (n mod 4 * 16)) EmptyString)
  | [a; b] =>
      let n := Byte.to_N a * 256 + Byte.to_N b in
      String (charAt base64urlAlphabet (n / 1024))
        (String (charAt base64urlAlphabet (n / 16 mod 64))
          (String (charAt base64urlAlphabet (n mod 16 * 4)) EmptyString))
  | a :: b :: c :: rest =>
      let n := Byte.to_N a * 65536 + Byte.to_N b * 256 + Byte.to_N c in
      String (charAt base64urlAlphabet (n / 262144))
        (String (charAt base64urlAlphabet (n / 4096 mod 64))
          (String (charAt base64urlAlphabet (n / 64 mod 64))
            (String (charAt base64urlAlphabet (n mod 64))
              (toStringBase64url rest))))
  end%N.

Section WithRandomBytes.
(** [crypto.randomBytes(size)] at the time of the call. *)
Variable randomBytes : nat -> list Byte.byte.

Definition generateId : string := toStringHex (randomBytes 16).
Definition generateSecret : string := toStringHex (randomBytes 32).
Definition generateToken : string := toStringBase64url (randomBytes 32).
End WithRandomBytes.

(** Reading a hex text back ([Buffer.from(text, 'hex')]), used to compare
    identifiers. *)
Definition hexValue (c : ascii) : option N :=
  (let n := N_of_ascii c in
   if (48 <=? n) && (n <=? 57) then Some (n - 48)
   else if (97 <=? n) && (n <=? 102) then Some (n - 87)
   else None)%N.

Fixpoint fromHex (text : string) : option (list Byte.byte) :=
  match text with
  | EmptyString => Some []
  | String _ EmptyString => None
  | String hi (String lo rest) =>
      match hexValue hi, hexValue lo, fromHex rest with
      | Some h, Some l, Some bytes =>
          match Byte.of_N (h * 16 + l) with
          | Some b => Some (b :: bytes)
          | None => None
          end
      | _, _, _ => None
      end
  end%N.

(** Every character of a text satisfies a test. *)
Fixpoint all_chars (test : ascii -> bool) (s : string) : bool :=
  match s with
  | EmptyString => true
  | String c rest => test c && all_chars test rest
  end.

(** A character of an alphabet. *)
Fixpoint occurs (c : ascii) (alphabet : string) : bool :=
  match alphabet with
  | EmptyString => false
  | String a rest => Ascii.eqb a c || occurs c rest
  end.

End Entropy.

(** ** A stricter stand-in for the [URL] class

    Only a text that starts with [https://] parses; used to run the
    provider on a redirect URI that is not a URL. *)

Module StrictURL.
Import OAuth.

Definition httpsURL : URLApi :=
  {| URL := SimpleURL;
     newURL := fun s =>
       if String.prefix "https://" s
       then Some {| base := s; query := [] |} else None;
     searchParams_set := simpleURL_set;
     URL_toString := simpleURL_toString |}.

Definition sample_bad_body : Body :=
  {| api_key := Some "crm-key";
     body_state := None;
     redirect_uri := Some "not a url";
     code_challenge := Some "challenge" |}.

End StrictURL.

(** ** Reading an escaped text back

    What a browser does with the value of a hidden field when the form
    is submitted: each of the five entities stands for its character. *)

Module HtmlDecode.

Fixpoint decodeEntities (s : string) : string :=
  match s with
  | EmptyString => EmptyString
  | String "&" (String "a" (String "m" (String "p" (String ";" rest)))) =>
      String "&" (decodeEntities rest)
  | String "&" (String "l" (String "t" (String ";" rest))) =>
      String "<" (decodeEntities rest)
  | String "&" (String "g" (String "t" (String ";" rest))) =>
      String ">" (decodeEntities rest)
  | String "&" (String "q" (String "u" (String "o" (String "t" (String ";" rest))))) =>
      String (ascii_of_nat 34) (decodeEntities rest)
  | String "&" (String "#" (String "3" (String "9" (String ";" rest)))) =>
      String "'" (decodeEntities rest)
  | String c rest => String c (decodeEntities rest)
  end.

(** One of the five characters [escapeHtml] replaces. *)
Definition is_special (c : ascii) : bool :=
  Ascii.eqb c "&" || AuthorizePage.is_markup c.

(** The opening of a hidden form field, up to the quote that opens its
    value. *)
Definition hiddenInput (name : string) : string :=
  "<input type=" +:+ dq +:+ "hidden" +:+ dq +:+ " name=" +:+ dq +:+ name
  +:+ dq +:+ " value=" +:+ dq.

(** What stands between two hidden fields of the form: the end of the
    tag, a line break and the indentation. *)
Definition betweenFields : string :=
  String ">" (String (ascii_of_nat 10) "      ").

(** The template before its first hidden field and after its last. *)
Definition beforeFields : string :=
  String.substring 0
    (String.length AuthorizePage.page_after_errorHtml
     - String.length (hiddenInput "state"))
    AuthorizePage.page_after_errorHtml.

Definition afterFields : string :=
  String.substring 1 (String.length AuthorizePage.page_tail - 1)
    AuthorizePage.page_tail.

End HtmlDecode.

(** ** Starting the desktop proxy ([discoverRemoteTools],
    [initializeServer], [main]) *)

Module DesktopProxyStartup.
Import DesktopProxy.

(** A tool as the remote server advertises it; its schema is opaque. *)
Record Tool := {
  tool_name : string;
  tool_inputSchema : string
}.

(** The local server once it is connected to stdio: what its two request
    handlers answer. *)
Record Server := {
  listToolsHandler : list Tool;
  callToolRequestHandler : CallToolParams -> P CallToolResult
}.

(** How the process goes on after [main]. *)
Inductive Process :=
| Exit (code : Z)
| Serving (server : Server) (proxy : TwentyCRMProxy).

Section WithRemote.
Variable connect : string -> string -> attempt Client.
(** [client.listTools()]: the [tools] of the response, possibly absent. *)
Variable listTools : Client -> attempt (option (list Tool)).
(** [server.connect(transport)] on stdio. *)
Variable serverConnect : attempt unit.

Definition discoverRemoteTools : P (list Tool) :=
  await (getRemoteClient connect) (fun client this =>
    match listTools client with
    | Fulfilled tools =>
        (Fulfilled (match tools with Some l => l | None => [] end), this)
    | Rejected e => (Rejected e, this)
    end).

Definition initializeServer : P Server :=
  await discoverRemoteTools (fun remoteTools this =>
    let server :=
      {| listToolsHandler := remoteTools;
         callToolRequestHandler := callToolHandler connect |} in
    match serverConnect with
    | Fulfilled _ => (Fulfilled server, this)
    | Rejected e => (Rejected e, this)
    end).

(** [main], with the rejection handler attached to it; the two
    arguments are [process.env.REMOTE_MCP_URL] and
    [process.env.TWENTY_API_KEY]. *)
Definition main (REMOTE_MCP_URL TWENTY_API_KEY : option string) : Process :=
  match OAuth.truthy_value REMOTE_MCP_URL with
  | None => Exit 1
  | Some serverUrl =>
      match OAuth.truthy_value TWENTY_API_KEY with
      | None => Exit 1
      | Some apiKey =>
          let proxy :=
            {| serverUrl := serverUrl; apiKey := apiKey; remoteClient := None |} in
          match initializeServer proxy with
          | (Fulfilled server, proxy') => Serving server proxy'
          | (Rejected _, _) => Exit 1
          end
      end
  end.

End WithRemote.

End DesktopProxyStartup.

(** * Properties *)

(** ** The authorization page escapes what it is given *)

Module AuthorizePageFacts.
Import AuthorizePage.

Lemma append_cons (x : ascii) (a b : string) :
  String x a +:+ b = String x (a +:+ b).
Proof. reflexivity. Qed.

Lemma append_assoc (a b c : string) : (a +:+ b) +:+ c = a +:+ (b +:+ c).
Proof.
  induction a as [|x a IH]; [reflexivity|].
  now rewrite !append_cons, IH.
Qed.

Lemma replaceAll_app c r (a b : string) :
  replaceAll c r (a +:+ b) = replaceAll c r a +:+ replaceAll c r b.
Proof.
  induction a as [|x a IH]; [reflexivity|].
  rewrite append_cons. cbn [replaceAll].
  destruct (Ascii.eqb x c); rewrite IH; [symmetry; apply append_assoc | reflexivity].
Qed.

Lemma fiveReplacements_app (a b : string) :
  fiveReplacements (a +:+ b) = fiveReplacements a +:+ fiveReplacements b.
Proof. unfold fiveReplacements. now rewrite !replaceAll_app. Qed.

(** On one character the chain gives its entity: the later replacements
    leave the entity written by an earlier one alone. *)
Lemma fiveReplacements_char (c : ascii) :
  fiveReplacements (String c EmptyString) = entity c.
Proof. destruct c as [[] [] [] [] [] [] [] []]; reflexivity. Qed.

Lemma fiveReplacements_substitute (s : string) :
  fiveReplacements s = substituteEntities s.
Proof.
  induction s as [|c s IH]; [reflexivity|].
  change (String c s) with (String c EmptyString +:+ s).
  rewrite fiveReplacements_app, fiveReplacements_char, IH. reflexivity.
Qed.

Lemma escapeHtml_substitute (s : string) :
  escapeHtml (Some s) = substituteEntities s.
Proof.
  destruct s as [|c s]; [reflexivity|].
  apply (fiveReplacements_substitute (String c s)).
Qed.

Lemma markup_app (a b : string) : markup (a +:+ b) = markup a +:+ markup b.
Proof.
  induction a as [|x a IH]; [reflexivity|].
  rewrite append_cons. cbn [markup].
  destruct (is_markup x); now rewrite IH.
Qed.

Lemma markup_entity (c : ascii) : markup (entity c) = EmptyString.
Proof. destruct c as [[] [] [] [] [] [] [] []]; reflexivity. Qed.

Lemma markup_substituteEntities (s : string) :
  markup (substituteEntities s) = EmptyString.
Proof.
  induction s as [|c s IH]; [reflexivity|].
  simpl. now rewrite markup_app, markup_entity, IH.
Qed.

Lemma markup_escapeHtml (str : option string) :
  markup (escapeHtml str) = EmptyString.
Proof.
  destruct str as [s|]; [|reflexivity].
  rewrite escapeHtml_substitute. apply markup_substituteEntities.
Qed.

Lemma append_empty_r (a : string) : a +:+ EmptyString = a.
Proof.
  induction a as [|x a IH]; [reflexivity|].
  now rewrite append_cons, IH.
Qed.

Lemma join_cons_cons (sep x y : string) (l : list string) :
  join sep (x :: y :: l) = x +:+ sep +:+ join sep (y :: l).
Proof. reflexivity. Qed.

Lemma markup_join (l : list string) :
  markup (join EmptyString l)
  = fold_right (fun x acc => markup x +:+ acc) EmptyString l.
Proof.
  induction l as [|x l IH]; [reflexivity|].
  destruct l as [|y l].
  - cbn [join fold_right]. now rewrite append_empty_r.
  - rewrite join_cons_cons, !markup_app, IH. reflexivity.
Qed.

(** The scope list has the markup of its [<li>] elements only. *)
Lemma markup_scope_items (l : list string) :
  markup (join EmptyString
            (map (fun s => "<li>" +:+ escapeHtml (Some s) +:+ "</li>") l))
  = markup (join EmptyString
            (map (fun s => "<li>" +:+ escapeHtml (Some s) +:+ "</li>")
                 (map (fun _ => "x") l))).
Proof.
  rewrite !markup_join.
  induction l as [|s l IH]; [reflexivity|].
  cbn [map fold_right]. rewrite IH, !markup_app, !markup_escapeHtml.
  reflexivity.
Qed.

Lemma markup_scopeList (o : PageOptions) :
  markup (scopeList o) = markup (scopeList (blank o)).
Proof.
  unfold scopeList, blank; cbn [scopes].
  destruct (scopes o) as [[|s l]|]; try reflexivity.
  cbn [fmap option_fmap option_map].
  apply (markup_scope_items (s :: l)).
Qed.

Lemma markup_errorHtml (o : PageOptions) :
  markup (errorHtml o) = markup (errorHtml (blank o)).
Proof.
  unfold errorHtml, blank; cbn [error].
  destruct (truthy (error o)) eqn:E; [|reflexivity].
  cbn [truthy is_empty negb].
  rewrite !markup_app, !markup_escapeHtml. reflexivity.
Qed.

(** C6. Every caller-supplied text reaches the page through [escapeHtml],
    whose five replacements (ampersand first) amount to replacing each
    occurrence of the five characters by its entity, so the escaped text
    holds no markup character, and the markup characters of the whole
    page are those of the page rendered with every supplied text blanked:
    nothing the caller sends adds or removes one. *)
Theorem generateAuthorizePage_escapes_input :
  (forall s : string, escapeHtml (Some s) = substituteEntities s) /\
  (forall str : option string, markup (escapeHtml str) = EmptyString) /\
  (forall o : PageOptions,
     generateAuthorizePage o
     = page_head
       +:+ substituteEntities (or_else (clientName o) "Unknown Application")
       +:+ page_after_clientName
       +:+ scopeList o
       +:+ page_after_scopeList
       +:+ errorHtml o
       +:+ page_after_errorHtml
       +:+ substituteEntities (or_else (state o) EmptyString)
       +:+ page_after_state
       +:+ substituteEntities (or_else (redirectUri o) EmptyString)
       +:+ page_after_redirectUri
       +:+ substituteEntities (or_else (codeChallenge o) EmptyString)
       +:+ page_tail) /\
  (forall o : PageOptions,
     scopeList o
     = match scopes o with
       | Some (s :: rest) =>
           join EmptyString
             (map (fun s => "<li>" +:+ substituteEntities s +:+ "</li>") (s :: rest))
       | _ => "<li>mcp:tools (default)</li>"
       end) /\
  (forall o : PageOptions,
     errorHtml o
     = if truthy (error o)
       then "<div class=" +:+ dq +:+ "error" +:+ dq +:+ ">"
            +:+ substituteEntities (or_else (error o) EmptyString) +:+ "</div>"
       else EmptyString) /\
  (forall o : PageOptions,
     markup (generateAuthorizePage o) = markup (generateAuthorizePage (blank o))).
Proof.
  split; [exact escapeHtml_substitute|].
  split; [exact markup_escapeHtml|].
  split.
  { intros o. unfold generateAuthorizePage.
    now rewrite !escapeHtml_substitute. }
  split.
  { intros o. unfold scopeList.
    destruct (scopes o) as [[|s l]|]; try reflexivity.
    f_equal. apply map_ext. intros a. now rewrite escapeHtml_substitute. }
  split.
  { intros o. unfold errorHtml.
    destruct (error o) as [e|]; [|reflexivity].
    destruct e as [|c e]; [reflexivity|].
    cbn [truthy is_empty negb or_else]. now rewrite escapeHtml_substitute. }
  intros o. unfold generateAuthorizePage.
  rewrite !markup_app, !markup_escapeHtml.
  rewrite markup_scopeList, markup_errorHtml. reflexivity.
Qed.

Example escapeHtml_script :
  escapeHtml (Some ("<a href=" +:+ dq +:+ "x" +:+ dq +:+ ">Tom & 'Jerry'</a>"))
  = "&lt;a href=&quot;x&quot;&gt;Tom &amp; &#39;Jerry&#39;&lt;/a&gt;".
Proof. reflexivity. Qed.

Example escapeHtml_entity_text : escapeHtml (Some "&lt;") = "&amp;lt;".
Proof. reflexivity. Qed.

Example scopeList_escaped :
  scopeList {| clientName := None; scopes := Some ["mcp:tools"; "<b>"];
               state := None; redirectUri := None; codeChallenge := None;
               error := None |}
  = "<li>mcp:tools</li><li>&lt;b&gt;</li>".
Proof. reflexivity. Qed.

End AuthorizePageFacts.

(** ** The OAuth provider *)

Module OAuthFacts.
Import OAuth.

Ltac run_method :=
  unfold bind, get, modify, throw, ret; cbn beta iota.

Section WithURL.
Context `{URLApi}.

(** *** Authorization codes *)

Lemma exchangeAuthorizationCode_missing this client code v r res t t' at_ rt :
  _codes this !! code = None ->
  exchangeAuthorizationCode client code v r res t t' at_ rt this
  = (Thrown "Invalid authorization code", this).
Proof.
  intros E. unfold exchangeAuthorizationCode. run_method. now rewrite E.
Qed.

Lemma exchangeAuthorizationCode_expired this client code v r res t t' at_ rt d :
  _codes this !! code = Some d ->
  t > code_expiresAt d ->
  exchangeAuthorizationCode client code v r res t t' at_ rt this
  = (Thrown "Authorization code expired", with_codes (delete code) this).
Proof.
  intros E Ht. unfold exchangeAuthorizationCode. run_method. rewrite E.
  destruct (Z.gtb_spec t (code_expiresAt d)); [reflexivity | lia].
Qed.

Lemma exchangeAuthorizationCode_fresh this client code v r res t t' at_ rt d :
  _codes this !! code = Some d ->
  t <= code_expiresAt d ->
  exchangeAuthorizationCode client code v r res t t' at_ rt this
  = (Returned {| access_token := at_;
                 token_type := "Bearer";
                 expires_in := accessTokenTTL this;
                 refresh_token := Some rt;
                 scope := join " " (code_scopes d) |},
     exchanged this client code d res t' at_ rt).
Proof.
  intros E Ht. unfold exchangeAuthorizationCode. run_method. rewrite E.
  destruct (Z.gtb_spec t (code_expiresAt d)); [lia | reflexivity].
Qed.

Lemma exchanged_codes this client code d res t' at_ rt :
  _codes (exchanged this client code d res t' at_ rt) = delete code (_codes this).
Proof. reflexivity. Qed.

(** What [validateTwentyApiKey] answers, for any answer of the CRM. *)
Lemma validateTwentyApiKey_returns fetch apiKey this :
  validateTwentyApiKey fetch apiKey this
  = (Returned
       match fetch {| req_url := twentyBaseUrl this +:+ "/rest/people?limit=1";
                      req_method := "GET";
                      req_headers := [("Authorization", "Bearer " +:+ apiKey);
                                      ("Content-Type", "application/json")] |} with
       | Returned response => ok response
       | Thrown _ => false
       end, this).
Proof.
  unfold validateTwentyApiKey. run_method.
  now destruct (fetch _).
Qed.

Lemma handleAuthorizeSubmit_stores this fetch req code t0 k r :
  truthy_value (api_key req) = Some k ->
  truthy_value (redirect_uri req) = Some r ->
  (validateTwentyApiKey fetch k this).1 = Returned true ->
  (handleAuthorizeSubmit fetch req code t0 this).2
  = with_codes (insert code (issuedCode this req k r t0)) this.
Proof.
  intros Hk Hr Hv. unfold handleAuthorizeSubmit. rewrite Hk, Hr.
  rewrite validateTwentyApiKey_returns in Hv. cbn [fst] in Hv.
  unfold bind at 1. rewrite validateTwentyApiKey_returns.
  injection Hv as Hv. rewrite Hv. cbn [negb]. run_method.
  now destruct (newURL r).
Qed.

Lemma handleAuthorizeSubmit_rejects_key this fetch req code t0 k r :
  truthy_value (api_key req) = Some k ->
  truthy_value (redirect_uri req) = Some r ->
  (validateTwentyApiKey fetch k this).1 = Returned false ->
  handleAuthorizeSubmit fetch req code t0 this
  = (Returned (Html 400 (AuthorizePage.generateAuthorizePage
       {| AuthorizePage.clientName := Some "Unknown";
          AuthorizePage.scopes := Some [];
          AuthorizePage.state := Some (or_else (body_state req) EmptyString);
          AuthorizePage.redirectUri := Some r;
          AuthorizePage.codeChallenge := Some (or_else (code_challenge req) EmptyString);
          AuthorizePage.error := Some "Invalid API key. Please check your Twenty CRM API key and try again." |})),
     this).
Proof.
  intros Hk Hr Hv. unfold handleAuthorizeSubmit. rewrite Hk, Hr.
  rewrite validateTwentyApiKey_returns in Hv. cbn [fst] in Hv.
  unfold bind at 1. rewrite validateTwentyApiKey_returns.
  injection Hv as Hv. rewrite Hv. reflexivity.
Qed.

(** C1. A code stored by [handleAuthorizeSubmit] expires [authCodeTTL]
    seconds later (300 unless configured otherwise). Exchanged before
    that, the first exchange returns tokens and deletes the code, and any
    later exchange of the same code throws as invalid; exchanged after
    that, the exchange throws as expired and the entry is deleted. *)
Theorem authorization_code_single_use
    (this : Provider) (fetch : Fetch) (req : Body) (code : string) (t0 : Z)
    (k r : string) :
  truthy_value (api_key req) = Some k ->
  truthy_value (redirect_uri req) = Some r ->
  (validateTwentyApiKey fetch k this).1 = Returned true ->
  let stored := (handleAuthorizeSubmit fetch req code t0 this).2 in
  let expiry := t0 + authCodeTTL this * 1000 in
  (forall env, authCodeTTL (constructor noOptions env) = 300) /\
  (code_expiresAt <$> _codes stored !! code) = Some expiry /\
  forall client v rd res t1 t1' at_ rt,
    let first := exchangeAuthorizationCode client code v rd res t1 t1' at_ rt stored in
    let second_fails :=
      forall client' v' rd' res' t2 t2' at' rt',
        exchangeAuthorizationCode client' code v' rd' res' t2 t2' at' rt' first.2
        = (Thrown "Invalid authorization code", first.2) in
    (t1 <= expiry ->
       (exists tokens, first.1 = Returned tokens)
       /\ _codes first.2 !! code = None
       /\ second_fails)
    /\ (t1 > expiry ->
       first.1 = Thrown "Authorization code expired"
       /\ _codes first.2 !! code = None
       /\ second_fails).
Proof.
  intros Hk Hr Hv stored expiry.
  split; [reflexivity|].
  assert (Hs : _codes stored !! code = Some (issuedCode this req k r t0)).
  { subst stored. rewrite (handleAuthorizeSubmit_stores _ _ _ _ _ _ _ Hk Hr Hv).
    cbn [_codes with_codes]. apply lookup_insert_eq. }
  split; [now rewrite Hs|].
  intros client v rd res t1 t1' at_ rt first second_fails.
  split; intros Ht.
  - assert (Hf := exchangeAuthorizationCode_fresh stored client code v rd res
                    t1 t1' at_ rt _ Hs Ht).
    fold first in Hf.
    assert (Hgone : _codes first.2 !! code = None).
    { rewrite Hf. cbn [snd]. rewrite exchanged_codes. apply lookup_delete_eq. }
    split; [rewrite Hf; eauto|]. split; [exact Hgone|].
    subst second_fails. intros.
    now apply exchangeAuthorizationCode_missing.
  - assert (Hf := exchangeAuthorizationCode_expired stored client code v rd res
                    t1 t1' at_ rt _ Hs Ht).
    fold first in Hf.
    assert (Hgone : _codes first.2 !! code = None).
    { rewrite Hf. cbn [snd _codes with_codes]. apply lookup_delete_eq. }
    split; [now rewrite Hf|]. split; [exact Hgone|].
    subst second_fails. intros.
    now apply exchangeAuthorizationCode_missing.
Qed.


(** C10. The record stored for a code names no client: it is built from
    the submitted form, the clock and the configured lifetime alone. And
    whoever presents a stored, unexpired code gets tokens: the exchange
    returns for every client record, and the access and refresh tokens it
    mints are bound to that caller's [client_id]. *)
Theorem authorization_code_not_bound_to_client
    (this : Provider) (code : string) (d : CodeData) :
  _codes this !! code = Some d ->
  (forall fetch req code' t0 k r,
     truthy_value (api_key req) = Some k ->
     truthy_value (redirect_uri req) = Some r ->
     (validateTwentyApiKey fetch k this).1 = Returned true ->
     _codes (handleAuthorizeSubmit fetch req code' t0 this).2 !! code'
     = Some {| code_twentyApiKey := k;
               code_codeChallenge := code_challenge req;
               code_redirectUri := r;
               code_state := body_state req;
               code_scopes := ["mcp:tools"];
               code_expiresAt := t0 + authCodeTTL this * 1000 |}) /\
  forall (client : Client) v rd res t1 t1' at_ rt,
    t1 <= code_expiresAt d ->
    let result := exchangeAuthorizationCode client code v rd res t1 t1' at_ rt this in
    (exists tokens,
       result.1 = Returned tokens
       /\ access_token tokens = at_
       /\ refresh_token tokens = Some rt)
    /\ (tok_clientId <$> _tokens result.2 !! at_) = Some (client_id client)
    /\ (rt_clientId <$> _refreshTokens result.2 !! rt) = Some (client_id client)
    /\ (tok_twentyApiKey <$> _tokens result.2 !! at_) = Some (code_twentyApiKey d).
Proof.
  intros Hd. split.
  { intros fetch req code' t0 k r Hk Hr Hv.
    rewrite (handleAuthorizeSubmit_stores _ _ _ _ _ _ _ Hk Hr Hv).
    cbn [_codes with_codes]. apply lookup_insert_eq. }
  intros client v rd res t1 t1' at_ rt Ht result. subst result.
  rewrite (exchangeAuthorizationCode_fresh _ client _ v rd res _ t1' at_ rt _ Hd Ht).
  cbn [fst snd]. split; [eauto|].
  unfold exchanged.
  cbn [_tokens _refreshTokens with_refreshTokens with_tokens with_codes].
  rewrite !lookup_insert_eq. auto.
Qed.

(** *** Refresh tokens *)

Lemma exchangeRefreshToken_unknown this client rt scopes res now at_ :
  _refreshTokens this !! rt = None ->
  exchangeRefreshToken client rt scopes res now at_ this
  = (Thrown "Invalid refresh token", this).
Proof.
  intros E. unfold exchangeRefreshToken. run_method. now rewrite E.
Qed.

Lemma exchangeRefreshToken_foreign this client rt scopes res now at_ d :
  _refreshTokens this !! rt = Some d ->
  rt_clientId d <> client_id client ->
  exchangeRefreshToken client rt scopes res now at_ this
  = (Thrown "Refresh token does not belong to this client", this).
Proof.
  intros E Hne. unfold exchangeRefreshToken. run_method. rewrite E.
  apply String.eqb_neq in Hne. now rewrite Hne.
Qed.

Lemma exchangeRefreshToken_expired this client rt scopes res now at_ d :
  _refreshTokens this !! rt = Some d ->
  rt_clientId d = client_id client ->
  now / 1000 - rt_createdAt d > refreshTokenTTL this ->
  exchangeRefreshToken client rt scopes res now at_ this
  = (Thrown "Refresh token expired", with_refreshTokens (delete rt) this).
Proof.
  intros E He Ht. unfold exchangeRefreshToken. run_method. rewrite E.
  apply String.eqb_eq in He. rewrite He. cbn [negb].
  destruct (Z.gtb_spec (now / 1000 - rt_createdAt d) (refreshTokenTTL this));
    [reflexivity | lia].
Qed.

Lemma exchangeRefreshToken_valid this client rt scopes res now at_ d :
  _refreshTokens this !! rt = Some d ->
  rt_clientId d = client_id client ->
  now / 1000 - rt_createdAt d <= refreshTokenTTL this ->
  exchangeRefreshToken client rt scopes res now at_ this
  = (Returned {| access_token := at_;
                 token_type := "Bearer";
                 expires_in := accessTokenTTL this;
                 refresh_token := None;
                 scope := join " " (effectiveScopes scopes (rt_scopes d)) |},
     with_tokens (insert at_
       {| tok_clientId := client_id client;
          tok_scopes := effectiveScopes scopes (rt_scopes d);
          tok_expiresAt := now / 1000 + accessTokenTTL this;
          tok_twentyApiKey := rt_twentyApiKey d;
          tok_resource := URL_toString <$> res |}) this).
Proof.
  intros E He Ht. unfold exchangeRefreshToken. run_method. rewrite E.
  apply String.eqb_eq in He. rewrite He. cbn [negb].
  destruct (Z.gtb_spec (now / 1000 - rt_createdAt d) (refreshTokenTTL this));
    [lia | reflexivity].
Qed.

(** The outcome of a refresh exchange, by cases. *)
Lemma exchangeRefreshToken_returned this client rt scopes res now at_ tokens :
  (exchangeRefreshToken client rt scopes res now at_ this).1 = Returned tokens ->
  exists d,
    _refreshTokens this !! rt = Some d
    /\ rt_clientId d = client_id client
    /\ now / 1000 - rt_createdAt d <= refreshTokenTTL this.
Proof.
  intros Hr.
  destruct (_refreshTokens this !! rt) as [d|] eqn:E.
  2:{ rewrite exchangeRefreshToken_unknown in Hr by assumption. discriminate. }
  destruct (decide (rt_clientId d = client_id client)) as [He|Hne].
  2:{ rewrite (exchangeRefreshToken_foreign _ _ _ _ _ _ _ _ E Hne) in Hr.
      discriminate. }
  destruct (Z_le_gt_dec (now / 1000 - rt_createdAt d) (refreshTokenTTL this))
    as [Hle|Hgt].
  - eauto.
  - rewrite (exchangeRefreshToken_expired _ _ _ _ _ _ _ _ E He Hgt) in Hr.
    discriminate.
Qed.

(** C3. A refresh token the store does not know throws as invalid; one
    owned by another client throws and stays in the store; one owned by
    the caller and older than [refreshTokenTTL] seconds (2,592,000 unless
    configured otherwise) throws as expired and is deleted. *)
Theorem exchangeRefreshToken_rejections
    (this : Provider) (client : Client) (rt : string)
    (scopes : option (list string)) (res : option URL) (now : Z) (at_ : string) :
  let result := exchangeRefreshToken client rt scopes res now at_ this in
  (forall env, refreshTokenTTL (constructor noOptions env) = 2592000) /\
  (_refreshTokens this !! rt = None ->
     result = (Thrown "Invalid refresh token", this)) /\
  (forall d,
     _refreshTokens this !! rt = Some d ->
     rt_clientId d <> client_id client ->
     result = (Thrown "Refresh token does not belong to this client", this)
     /\ _refreshTokens result.2 !! rt = Some d) /\
  (forall d,
     _refreshTokens this !! rt = Some d ->
     rt_clientId d = client_id client ->
     now / 1000 - rt_createdAt d > refreshTokenTTL this ->
     result.1 = Thrown "Refresh token expired"
     /\ result.2 = with_refreshTokens (delete rt) this
     /\ _refreshTokens result.2 !! rt = None).
Proof.
  intros result. subst result.
  split; [reflexivity|].
  split; [apply exchangeRefreshToken_unknown|].
  split.
  - intros d E Hne.
    rewrite (exchangeRefreshToken_foreign _ _ _ _ _ _ _ _ E Hne). auto.
  - intros d E He Ht.
    rewrite (exchangeRefreshToken_expired _ _ _ _ _ _ _ _ E He Ht).
    cbn [fst snd _refreshTokens with_refreshTokens].
    rewrite lookup_delete_eq. auto.
Qed.

Lemma includes_elem_of (l : list string) (s : string) :
  includes l s = true <-> s ∈ l.
Proof.
  unfold includes. rewrite existsb_exists, list_elem_of_In. split.
  - intros [x [Hin Hx]]. apply String.eqb_eq in Hx. now subst.
  - intros Hin. exists s. split; [assumption | apply String.eqb_refl].
Qed.

Lemma effectiveScopes_requested (requested original : list string) :
  requested <> [] ->
  forall s, s ∈ effectiveScopes (Some requested) original
            <-> s ∈ requested /\ s ∈ original.
Proof.
  intros Hne s. destruct requested as [|x l]; [congruence|].
  unfold effectiveScopes.
  rewrite list_elem_of_filter, includes_elem_of. tauto.
Qed.

(** C4. When a refresh exchange returns, the scopes stored with the new
    access token, and joined by spaces in the returned [scope], are the
    requested scopes that the refresh token also has (in the order
    requested) when a non-empty list was requested, and the refresh
    token's own scopes otherwise. *)
Theorem exchangeRefreshToken_effective_scopes
    (this : Provider) (client : Client) (rt : string)
    (scopes : option (list string)) (res : option URL) (now : Z) (at_ : string)
    (tokens : OAuthTokens) :
  let result := exchangeRefreshToken client rt scopes res now at_ this in
  result.1 = Returned tokens ->
  exists (d : RefreshData) (effective : list string),
    _refreshTokens this !! rt = Some d
    /\ (tok_scopes <$> _tokens result.2 !! access_token tokens) = Some effective
    /\ scope tokens = join " " effective
    /\ (forall requested,
          scopes = Some requested -> requested <> [] ->
          effective = filter (fun s => s ∈ rt_scopes d) requested
          /\ forall s, s ∈ effective <-> s ∈ requested /\ s ∈ rt_scopes d)
    /\ (scopes = None \/ scopes = Some [] -> effective = rt_scopes d).
Proof.
  intros result Hr. subst result.
  destruct (exchangeRefreshToken_returned _ _ _ _ _ _ _ _ Hr) as (d & E & He & Ht).
  rewrite (exchangeRefreshToken_valid _ _ _ scopes res _ at_ _ E He Ht) in Hr |- *.
  cbn [fst snd] in *. injection Hr as <-. cbn [access_token scope].
  exists d, (effectiveScopes scopes (rt_scopes d)).
  split; [assumption|].
  split; [cbn [_tokens with_tokens]; now rewrite lookup_insert_eq|].
  split; [reflexivity|].
  split.
  - intros requested -> Hne. split.
    + destruct requested as [|x l]; [congruence|].
      unfold effectiveScopes. apply list_filter_iff.
      intros s. apply includes_elem_of.
    + now apply effectiveScopes_requested.
  - intros [-> | ->]; reflexivity.
Qed.


(** [validateTwentyApiKey] answers [true] exactly for a resolved fetch
    whose status lies in 200-299. *)
Lemma validateTwentyApiKey_true_iff fetch apiKey this :
  (validateTwentyApiKey fetch apiKey this).1 = Returned true
  <-> exists response,
        fetch {| req_url := twentyBaseUrl this +:+ "/rest/people?limit=1";
                 req_method := "GET";
                 req_headers := [("Authorization", "Bearer " +:+ apiKey);
                                 ("Content-Type", "application/json")] |}
        = Returned response
        /\ 200 <= status response <= 299.
Proof.
  rewrite validateTwentyApiKey_returns. cbn [fst].
  destruct (fetch _) as [response|e].
  - unfold ok. split.
    + intros [= Hok]. exists response. split; [reflexivity|].
      apply andb_true_iff in Hok. lia.
    + intros (response' & [= <-] & Hrange). f_equal.
      apply andb_true_iff. lia.
  - split; [discriminate|]. intros (response & Hr & _). discriminate.
Qed.

(** *** Revocation *)

Ltac revoke_cases :=
  unfold revokeToken, revokeAsRefreshToken; run_method;
  repeat first
    [ progress cbn beta iota
    | match goal with
      | |- context [if hint_allows ?h ?k then _ else _] =>
          destruct (hint_allows h k)
      | |- context [match ?m !! ?t with _ => _ end] =>
          destruct (m !! t) eqn:?
      | |- context [if String.eqb ?a ?b then _ else _] =>
          destruct (String.eqb_spec a b)
      end ].

(** C5. [revokeToken] always returns. A token that each store either
    lacks or holds for another client leaves the provider as it was; and
    whenever the provider changes, exactly one entry was deleted, one
    that existed under the token and was owned by the requesting
    client. *)
Theorem revokeToken_never_throws
    (this : Provider) (client : Client) (request : OAuthTokenRevocationRequest) :
  let result := revokeToken client request this in
  result.1 = Returned tt
  /\ ((forall d, _tokens this !! token request = Some d ->
                 tok_clientId d <> client_id client) ->
      (forall d, _refreshTokens this !! token request = Some d ->
                 rt_clientId d <> client_id client) ->
      result.2 = this)
  /\ (result.2 = this
      \/ (exists d,
            _tokens this !! token request = Some d
            /\ tok_clientId d = client_id client
            /\ result.2 = with_tokens (delete (token request)) this)
      \/ (exists d,
            _refreshTokens this !! token request = Some d
            /\ rt_clientId d = client_id client
            /\ result.2 = with_refreshTokens (delete (token request)) this)).
Proof.
  intros result. subst result.
  revoke_cases;
    cbn [fst snd];
    (split; [reflexivity|]);
    (split;
     [ intros Ha Hb; first [ reflexivity
                           | exfalso; eapply Ha; eauto; fail
                           | exfalso; eapply Hb; eauto; fail ]
     | first [ left; reflexivity
             | right; left; eexists; repeat split; eauto; fail
             | right; right; eexists; repeat split; eauto; fail ] ]).
Qed.

(** *** The API key bound to a token *)

Lemma truthy_value_nonempty (o : option string) (s : string) :
  truthy_value o = Some s -> is_empty s = false.
Proof.
  unfold truthy_value, truthy. destruct o as [x|]; [|discriminate].
  destruct (is_empty x) eqn:E; cbn [negb]; [discriminate|].
  now intros [= <-].
Qed.

Lemma keys_bound_with_clients f this :
  keys_bound this -> keys_bound (with_clients f this).
Proof. intros Hb. exact Hb. Qed.

Lemma keys_bound_with_codes f this :
  (forall c d, f (_codes this) !! c = Some d ->
               is_empty (code_twentyApiKey d) = false) ->
  keys_bound this -> keys_bound (with_codes f this).
Proof. intros Hf (_ & Ht & Hr). repeat split; assumption. Qed.

Lemma keys_bound_with_tokens f this :
  (forall t d, f (_tokens this) !! t = Some d ->
               is_empty (tok_twentyApiKey d) = false) ->
  keys_bound this -> keys_bound (with_tokens f this).
Proof. intros Hf (Hc & _ & Hr). repeat split; assumption. Qed.

Lemma keys_bound_with_refreshTokens f this :
  (forall t d, f (_refreshTokens this) !! t = Some d ->
               is_empty (rt_twentyApiKey d) = false) ->
  keys_bound this -> keys_bound (with_refreshTokens f this).
Proof. intros Hf (Hc & Ht & _). repeat split; assumption. Qed.

Lemma keys_bound_delete_code c this :
  keys_bound this -> keys_bound (with_codes (delete c) this).
Proof.
  intros Hb. apply keys_bound_with_codes; [|assumption].
  intros c' d [_ Hl]%lookup_delete_Some. now apply Hb in Hl.
Qed.

Lemma keys_bound_delete_token t this :
  keys_bound this -> keys_bound (with_tokens (delete t) this).
Proof.
  intros Hb. apply keys_bound_with_tokens; [|assumption].
  intros t' d [_ Hl]%lookup_delete_Some. now apply Hb in Hl.
Qed.

Lemma keys_bound_delete_refreshToken t this :
  keys_bound this -> keys_bound (with_refreshTokens (delete t) this).
Proof.
  intros Hb. apply keys_bound_with_refreshTokens; [|assumption].
  intros t' d [_ Hl]%lookup_delete_Some. now apply Hb in Hl.
Qed.

Lemma keys_bound_insert_code c d this :
  is_empty (code_twentyApiKey d) = false ->
  keys_bound this -> keys_bound (with_codes (insert c d) this).
Proof.
  intros Hd Hb. apply keys_bound_with_codes; [|assumption].
  intros c' d' [[_ <-]|[_ Hl]]%lookup_insert_Some; [assumption|].
  now apply Hb in Hl.
Qed.

Lemma keys_bound_insert_token t d this :
  is_empty (tok_twentyApiKey d) = false ->
  keys_bound this -> keys_bound (with_tokens (insert t d) this).
Proof.
  intros Hd Hb. apply keys_bound_with_tokens; [|assumption].
  intros t' d' [[_ <-]|[_ Hl]]%lookup_insert_Some; [assumption|].
  now apply Hb in Hl.
Qed.

Lemma keys_bound_insert_refreshToken t d this :
  is_empty (rt_twentyApiKey d) = false ->
  keys_bound this -> keys_bound (with_refreshTokens (insert t d) this).
Proof.
  intros Hd Hb. apply keys_bound_with_refreshTokens; [|assumption].
  intros t' d' [[_ <-]|[_ Hl]]%lookup_insert_Some; [assumption|].
  now apply Hb in Hl.
Qed.

Lemma keys_bound_cleanup now this :
  keys_bound this -> keys_bound (cleanup now this).2.
Proof.
  intros Hb. unfold cleanup. run_method. cbn [snd].
  apply keys_bound_with_refreshTokens.
  { intros t d [Hl _]%map_lookup_filter_Some. now apply Hb in Hl. }
  apply keys_bound_with_tokens.
  { intros t d [Hl _]%map_lookup_filter_Some. now apply Hb in Hl. }
  apply keys_bound_with_codes; [|assumption].
  intros t d [Hl _]%map_lookup_filter_Some. now apply Hb in Hl.
Qed.

Lemma keys_bound_handleAuthorizeSubmit fetch req code now this :
  keys_bound this -> keys_bound (handleAuthorizeSubmit fetch req code now this).2.
Proof.
  intros Hb. unfold handleAuthorizeSubmit.
  destruct (truthy_value (api_key req)) as [k|] eqn:Hk; [|exact Hb].
  destruct (truthy_value (redirect_uri req)) as [r|] eqn:Hr; [|exact Hb].
  unfold bind at 1. rewrite validateTwentyApiKey_returns.
  destruct (match fetch _ with Returned response => ok response | Thrown _ => false end);
    cbn [negb]; [|exact Hb].
  run_method.
  assert (keys_bound (with_codes (insert code (issuedCode this req k r now)) this)).
  { apply keys_bound_insert_code; [|assumption].
    exact (truthy_value_nonempty _ _ Hk). }
  now destruct (newURL r).
Qed.

Lemma keys_bound_after (c : Call) this :
  keys_bound this -> keys_bound (after c this).
Proof.
  intros Hb.
  destruct c as [md id sec now | client params | fetch req code now
                | client code now | client code v r res now now' at_ rt
                | client rt scopes res now at_ | tok now | client request
                | now]; cbn [after].
  - exact Hb.
  - exact Hb.
  - now apply keys_bound_handleAuthorizeSubmit.
  - unfold challengeForAuthorizationCode. run_method.
    destruct (_codes this !! code) as [d|]; [|exact Hb].
    destruct (now >? code_expiresAt d); [|exact Hb].
    now apply keys_bound_delete_code.
  - destruct (_codes this !! code) as [d|] eqn:E.
    2:{ now rewrite exchangeAuthorizationCode_missing. }
    destruct (Z_le_gt_dec now (code_expiresAt d)) as [Hle|Hgt].
    + rewrite (exchangeAuthorizationCode_fresh _ _ _ _ _ _ _ _ _ _ _ E Hle).
      cbn [snd]. unfold exchanged.
      assert (Hd : is_empty (code_twentyApiKey d) = false) by now apply Hb in E.
      apply keys_bound_insert_refreshToken; [exact Hd|].
      apply keys_bound_insert_token; [exact Hd|].
      now apply keys_bound_delete_code.
    + rewrite (exchangeAuthorizationCode_expired _ _ _ _ _ _ _ _ _ _ _ E Hgt).
      now apply keys_bound_delete_code.
  - destruct (_refreshTokens this !! rt) as [d|] eqn:E.
    2:{ now rewrite exchangeRefreshToken_unknown. }
    destruct (decide (rt_clientId d = client_id client)) as [He|Hne].
    2:{ now rewrite (exchangeRefreshToken_foreign _ _ _ _ _ _ _ _ E Hne). }
    destruct (Z_le_gt_dec (now / 1000 - rt_createdAt d) (refreshTokenTTL this))
      as [Hle|Hgt].
    + rewrite (exchangeRefreshToken_valid _ _ _ _ _ _ _ _ E He Hle). cbn [snd].
      apply keys_bound_insert_token; [|assumption]. now apply Hb in E.
    + rewrite (exchangeRefreshToken_expired _ _ _ _ _ _ _ _ E He Hgt).
      now apply keys_bound_delete_refreshToken.
  - unfold verifyAccessToken. run_method.
    destruct (_tokens this !! tok) as [d|]; [|exact Hb].
    destruct (now / 1000 >? tok_expiresAt d).
    + now apply keys_bound_delete_token.
    + destruct (truthy_value (tok_resource d)) as [r|]; [|exact Hb].
      destruct (newURL r); exact Hb.
  - revoke_cases; cbn [snd];
      first [ exact Hb
            | now apply keys_bound_delete_token
            | now apply keys_bound_delete_refreshToken ].
  - now apply keys_bound_cleanup.
Qed.


Lemma reachable_keys_bound this : reachable this -> keys_bound this.
Proof.
  induction 1 as [options env | c this _ IH].
  - repeat split; intros ? ? Hl; cbn in Hl; now rewrite lookup_empty in Hl.
  - now apply keys_bound_after.
Qed.

Lemma verifyAccessToken_expired this token dateNow d :
  _tokens this !! token = Some d ->
  dateNow / 1000 > tok_expiresAt d ->
  verifyAccessToken token dateNow this
  = (Thrown "Access token expired", with_tokens (delete token) this).
Proof.
  intros E Ht. unfold verifyAccessToken. run_method. rewrite E.
  destruct (Z.gtb_spec (dateNow / 1000) (tok_expiresAt d)); [reflexivity | lia].
Qed.

(** C9. [getApiKeyForToken] does not look at the clock. For a token that
    is still in the store of a running provider and whose expiry has
    passed, it answers the bound CRM API key, not [null], while
    [verifyAccessToken] on the same token throws as expired and deletes
    it, after which [getApiKeyForToken] answers [null]. *)
Theorem getApiKeyForToken_ignores_expiry
    (this : Provider) (token : string) (d : TokenData) (dateNow : Z) :
  reachable this ->
  _tokens this !! token = Some d ->
  dateNow / 1000 > tok_expiresAt d ->
  getApiKeyForToken this token = Some (tok_twentyApiKey d)
  /\ verifyAccessToken token dateNow this
     = (Thrown "Access token expired", with_tokens (delete token) this)
  /\ getApiKeyForToken (verifyAccessToken token dateNow this).2 token = None.
Proof.
  intros Hreach E Ht.
  pose proof (reachable_keys_bound _ Hreach) as (_ & Hb & _).
  specialize (Hb _ _ E).
  split.
  - unfold getApiKeyForToken, truthy_value. rewrite E.
    cbn [fmap option_fmap option_map truthy]. now rewrite Hb.
  - rewrite (verifyAccessToken_expired _ _ _ _ E Ht). split; [reflexivity|].
    unfold getApiKeyForToken. cbn [snd _tokens with_tokens].
    now rewrite lookup_delete_eq.
Qed.

End WithURL.

End OAuthFacts.

(** *** Running the provider *)

Module OAuthRuns.
Import OAuth OAuthFacts.

Example sample_authorized_code :
  _codes sample_authorized !! "c0de"
  = Some {| code_twentyApiKey := "crm-key";
            code_codeChallenge := Some "challenge";
            code_redirectUri := "https://client.example/callback";
            code_state := Some "xyz";
            code_scopes := ["mcp:tools"];
            code_expiresAt := 301000 |}.
Proof. reflexivity. Qed.

Example sample_authorized_redirect :
  (handleAuthorizeSubmit (H := simpleURL) (answering 200) sample_body
     "c0de" 1000 sample_provider).1
  = Returned (Redirect "https://client.example/callback?code=c0de&state=xyz").
Proof. reflexivity. Qed.

Example sample_exchanged_token :
  _tokens sample_exchanged !! "access-1"
  = Some {| tok_clientId := "client-a";
            tok_scopes := ["mcp:tools"];
            tok_expiresAt := 3602;
            tok_twentyApiKey := "crm-key";
            tok_resource := None |}.
Proof. reflexivity. Qed.

Example sample_exchanged_refreshToken :
  _refreshTokens sample_exchanged !! "refresh-1"
  = Some {| rt_clientId := "client-a";
            rt_scopes := ["mcp:tools"];
            rt_twentyApiKey := "crm-key";
            rt_createdAt := 2 |}.
Proof. reflexivity. Qed.

Lemma sample_exchanged_reachable : reachable (H := simpleURL) sample_exchanged.
Proof. do 2 apply reachable_call. apply reachable_new. Qed.

(** C2, at a status other than 200. The source accepts what
    [Response.ok] accepts: a 204 answer makes [validateTwentyApiKey]
    return [true], and [handleAuthorizeSubmit] stores a code and
    redirects, where the comment in the source and the specification
    both promise a rejection. Other statuses outside 200-299 and a
    rejected fetch are refused with the 400 page. *)
Theorem validateTwentyApiKey_accepts_204 :
  validateTwentyApiKey (answering 204) "crm-key" sample_provider
  = (Returned true, sample_provider)
  /\ (handleAuthorizeSubmit (H := simpleURL) (answering 204) sample_body
        "c0de" 1000 sample_provider).1
     = Returned (Redirect "https://client.example/callback?code=c0de&state=xyz")
  /\ (code_twentyApiKey <$>
        _codes (handleAuthorizeSubmit (H := simpleURL) (answering 204) sample_body
                  "c0de" 1000 sample_provider).2 !! "c0de")
     = Some "crm-key"
  /\ validateTwentyApiKey (answering 200) "crm-key" sample_provider
     = (Returned true, sample_provider)
  /\ validateTwentyApiKey (answering 401) "crm-key" sample_provider
     = (Returned false, sample_provider)
  /\ validateTwentyApiKey (fun _ => Thrown "fetch failed") "crm-key" sample_provider
     = (Returned false, sample_provider).
Proof. repeat split; reflexivity. Qed.

Lemma authorization_code_single_use_witness :
  truthy_value (api_key sample_body) = Some "crm-key"
  /\ truthy_value (redirect_uri sample_body) = Some "https://client.example/callback"
  /\ (validateTwentyApiKey (answering 200) "crm-key" sample_provider).1
     = Returned true
  /\ (code_expiresAt <$> _codes sample_authorized !! "c0de") = Some 301000
  /\ (exists tokens,
        (exchangeAuthorizationCode (H := simpleURL) sample_client "c0de"
           None None None 2000 2000 "access-1" "refresh-1" sample_authorized).1
        = Returned tokens)
  /\ exchangeAuthorizationCode (H := simpleURL) sample_other "c0de"
       None None None 3000 3000 "access-2" "refresh-2" sample_exchanged
     = (Thrown "Invalid authorization code", sample_exchanged)
  /\ (exchangeAuthorizationCode (H := simpleURL) sample_client "c0de"
        None None None 301001 301001 "access-1" "refresh-1" sample_authorized).1
     = Thrown "Authorization code expired".
Proof.
  pose proof (authorization_code_single_use (H := simpleURL) sample_provider
                (answering 200) sample_body "c0de" 1000 "crm-key"
                "https://client.example/callback" eq_refl eq_refl eq_refl)
    as (_ & Hexpiry & Hexchange).
  split; [reflexivity|]. split; [reflexivity|]. split; [reflexivity|].
  split; [exact Hexpiry|].
  split.
  - destruct (Hexchange sample_client None None None 2000 2000
                "access-1" "refresh-1") as [Hfresh _].
    apply Hfresh. change (2000 <= 301000). lia.
  - split.
    + destruct (Hexchange sample_client None None None 2000 2000
                  "access-1" "refresh-1") as [Hfresh _].
      destruct Hfresh as (_ & _ & Hsecond); [change (2000 <= 301000); lia|].
      exact (Hsecond sample_other None None None 3000 3000 "access-2" "refresh-2").
    + destruct (Hexchange sample_client None None None 301001 301001
                  "access-1" "refresh-1") as [_ Hlate].
      apply Hlate. change (301001 > 301000). lia.
Defined.

Lemma authorization_code_not_bound_to_client_witness :
  _codes sample_authorized !! "c0de"
  = Some {| code_twentyApiKey := "crm-key";
            code_codeChallenge := Some "challenge";
            code_redirectUri := "https://client.example/callback";
            code_state := Some "xyz";
            code_scopes := ["mcp:tools"];
            code_expiresAt := 301000 |}
  /\ 2000 <= 301000
  /\ (tok_clientId <$>
        _tokens (exchangeAuthorizationCode (H := simpleURL) sample_other "c0de"
                   None None None 2000 2000 "access-9" "refresh-9"
                   sample_authorized).2 !! "access-9")
     = Some "client-b".
Proof.
  split; [reflexivity|]. split; [lia|].
  destruct (authorization_code_not_bound_to_client (H := simpleURL)
              sample_authorized "c0de" _ eq_refl) as [_ Hany].
  destruct (Hany sample_other None None None 2000 2000 "access-9" "refresh-9")
    as (_ & Hclient & _); [change (2000 <= 301000); lia|].
  exact Hclient.
Defined.

Lemma exchangeRefreshToken_rejections_witness :
  exchangeRefreshToken (H := simpleURL) sample_client "unknown" None None
    5000 "access-2" sample_exchanged
  = (Thrown "Invalid refresh token", sample_exchanged)
  /\ exchangeRefreshToken (H := simpleURL) sample_other "refresh-1" None None
       5000 "access-2" sample_exchanged
     = (Thrown "Refresh token does not belong to this client", sample_exchanged)
  /\ (exchangeRefreshToken (H := simpleURL) sample_client "refresh-1" None None
        2592003000 "access-2" sample_exchanged).1
     = Thrown "Refresh token expired"
  /\ _refreshTokens
       (exchangeRefreshToken (H := simpleURL) sample_client "refresh-1" None None
          2592003000 "access-2" sample_exchanged).2 !! "refresh-1"
     = None.
Proof.
  split.
  { destruct (exchangeRefreshToken_rejections (H := simpleURL) sample_exchanged
                sample_client "unknown" None None 5000 "access-2")
      as (_ & Hunknown & _).
    apply Hunknown. reflexivity. }
  split.
  { destruct (exchangeRefreshToken_rejections (H := simpleURL) sample_exchanged
                sample_other "refresh-1" None None 5000 "access-2")
      as (_ & _ & Hforeign & _).
    destruct (Hforeign _ eq_refl) as [Hthrown _]; [discriminate|].
    exact Hthrown. }
  destruct (exchangeRefreshToken_rejections (H := simpleURL) sample_exchanged
              sample_client "refresh-1" None None 2592003000 "access-2")
    as (_ & _ & _ & Hexpired).
  destruct (Hexpired _ eq_refl eq_refl) as (Hthrown & _ & Hgone); [reflexivity|].
  split; assumption.
Defined.

Lemma exchangeRefreshToken_effective_scopes_witness :
  (exchangeRefreshToken (H := simpleURL) sample_client "refresh-1"
     (Some ["admin"; "mcp:tools"]) None 5000 "access-2" sample_exchanged).1
  = Returned {| access_token := "access-2";
                token_type := "Bearer";
                expires_in := 3600;
                refresh_token := None;
                scope := "mcp:tools" |}
  /\ exists (d : RefreshData) (effective : list string),
       _refreshTokens sample_exchanged !! "refresh-1" = Some d
       /\ (tok_scopes <$>
             _tokens (exchangeRefreshToken (H := simpleURL) sample_client
                        "refresh-1" (Some ["admin"; "mcp:tools"]) None 5000
                        "access-2" sample_exchanged).2 !! "access-2")
          = Some effective
       /\ "mcp:tools" = join " " effective.
Proof.
  split; [reflexivity|].
  destruct (exchangeRefreshToken_effective_scopes (H := simpleURL)
              sample_exchanged sample_client "refresh-1"
              (Some ["admin"; "mcp:tools"]) None 5000 "access-2" _ eq_refl)
    as (d & effective & Hd & Hstored & Hscope & _).
  exists d, effective. repeat split; assumption.
Defined.

Lemma revokeToken_never_throws_witness :
  (revokeToken sample_other {| token := "access-1"; token_type_hint := None |}
     sample_exchanged)
  = (Returned tt, sample_exchanged).
Proof.
  destruct (revokeToken_never_throws sample_exchanged sample_other
              {| token := "access-1"; token_type_hint := None |})
    as (Hreturned & Hsame & _).
  apply injective_projections; cbn [fst snd]; [exact Hreturned|].
  apply Hsame; intros d [= <-]; discriminate.
Defined.

Lemma getApiKeyForToken_ignores_expiry_witness :
  reachable (H := simpleURL) sample_exchanged
  /\ 4000000 / 1000 > 3602
  /\ getApiKeyForToken sample_exchanged "access-1" = Some "crm-key"
  /\ (verifyAccessToken (H := simpleURL) "access-1" 4000000 sample_exchanged).1
     = Thrown "Access token expired".
Proof.
  split; [do 2 apply reachable_call; apply reachable_new|].
  split; [reflexivity|].
  destruct (getApiKeyForToken_ignores_expiry (H := simpleURL) sample_exchanged
              "access-1" _ 4000000
              (reachable_call _ _ (reachable_call _ _ (reachable_new noOptions None)))
              eq_refl eq_refl)
    as (Hkey & Hverify & _).
  split; [exact Hkey|]. now rewrite Hverify.
Defined.

End OAuthRuns.

(** ** The desktop proxy reports remote failures as results *)

Module DesktopProxyFacts.
Import DesktopProxy.

(** C8. Whenever the forwarded call throws, be it while connecting or in
    the remote call itself, the handler returns a result with [isError]
    set whose single text item is "Error: " followed by the thrown
    error's message; the handler itself never throws. *)
Theorem callToolHandler_reports_remote_failure
    (connect : string -> string -> attempt Client)
    (params : CallToolParams) (this : TwentyCRMProxy) :
  (forall (error : thrown) (this' : TwentyCRMProxy),
     callRemoteTool connect (name params) (args_or_empty params) this
     = (Rejected error, this') ->
     callToolHandler connect params this
     = (Fulfilled {| content := [TextContent ("Error: " +:+ errorMessage error)];
                     isError := Some true |},
        this'))
  /\ (forall message : string,
        errorMessage (ErrorObject message) = message)
  /\ exists (result : CallToolResult) (this' : TwentyCRMProxy),
       callToolHandler connect params this = (Fulfilled result, this').
Proof.
  unfold callToolHandler, try_catch, resolve.
  split; [|split; [reflexivity|]].
  - intros error this' Hthrown. now rewrite Hthrown.
  - destruct (callRemoteTool connect (name params) _ this) as [[result|error] this'];
      eauto.
Qed.

Example callToolHandler_remote_rejects :
  callToolHandler (fun _ _ => Fulfilled failing_client) sample_params
    (sample_proxy None)
  = (Fulfilled {| content := [TextContent "Error: HTTP 401: Unauthorized"];
                  isError := Some true |},
     sample_proxy (Some failing_client)).
Proof. reflexivity. Qed.

Example callToolHandler_connect_rejects :
  callToolHandler (fun _ _ => Rejected (OtherValue "timeout")) sample_params
    (sample_proxy None)
  = (Fulfilled {| content := [TextContent "Error: timeout"];
                  isError := Some true |},
     sample_proxy None).
Proof. reflexivity. Qed.

Example callToolHandler_forwards :
  callToolHandler (fun _ _ => Fulfilled failing_client) sample_params
    (sample_proxy (Some echo_client))
  = (Fulfilled {| content := [TextContent "list_people"]; isError := None |},
     sample_proxy (Some echo_client)).
Proof. reflexivity. Qed.

Lemma callToolHandler_reports_remote_failure_witness :
  callRemoteTool (fun _ _ => Fulfilled failing_client) "list_people" []
    (sample_proxy None)
  = (Rejected (ErrorObject "HTTP 401: Unauthorized"),
     sample_proxy (Some failing_client))
  /\ callToolHandler (fun _ _ => Fulfilled failing_client) sample_params
       (sample_proxy None)
     = (Fulfilled {| content := [TextContent "Error: HTTP 401: Unauthorized"];
                     isError := Some true |},
        sample_proxy (Some failing_client)).
Proof.
  split; [reflexivity|].
  destruct (callToolHandler_reports_remote_failure
              (fun _ _ => Fulfilled failing_client) sample_params
              (sample_proxy None)) as [Hreport _].
  exact (Hreport _ _ eq_refl).
Defined.

End DesktopProxyFacts.

(** ** Field normalization is idempotent *)

Module FieldNormalizationFacts.
Import FieldNormalization.

(** The tests of the repository, replayed on the model. *)

Example emails_simple_string :
  normalizeEmailsValue (fun v => v) (VStr "test@example.com")
  = Some (VObj [("primaryEmail", VStr "test@example.com");
                ("additionalEmails", VNull)]).
Proof. reflexivity. Qed.

Example emails_array :
  normalizeEmailsValue (fun v => v)
    (VArr [VStr "primary@example.com"; VStr "secondary@example.com"])
  = Some (VObj [("primaryEmail", VStr "primary@example.com");
                ("additionalEmails",
                 VArr [VObj [("value", VStr "secondary@example.com")]])]).
Proof. reflexivity. Qed.

Example emails_as_is :
  let input := VObj [("primaryEmail", VStr "test@example.com");
                     ("additionalEmails", VNull)] in
  normalizeEmailsValue (fun v => v) input = Some input.
Proof. reflexivity. Qed.

Example phones_simple_string :
  normalizePhonesValue (VStr "+41 44 123 45 67")
  = Some (VObj [("primaryPhoneNumber", VStr "+41 44 123 45 67");
                ("primaryPhoneCallingCode", VStr EmptyString);
                ("primaryPhoneCountryCode", VStr EmptyString);
                ("additionalPhones", VNull)]).
Proof. reflexivity. Qed.

Example phones_array :
  normalizePhonesValue
    (VArr [VObj [("number", VStr "+41 44 123 45 67");
                 ("countryCode", VStr "CH");
                 ("callingCode", VStr "+41")];
           VStr "+41 44 987 65 43"])
  = Some (VObj [("primaryPhoneNumber", VStr "+41 44 123 45 67");
                ("primaryPhoneCallingCode", VStr "+41");
                ("primaryPhoneCountryCode", VStr "CH");
                ("additionalPhones",
                 VArr [VObj [("number", VStr "+41 44 987 65 43");
                             ("countryCode", VStr EmptyString);
                             ("callingCode", VStr EmptyString)]])]).
Proof. reflexivity. Qed.

Example address_simple_string :
  normalizeAddressValue (VStr "Gotthardstrasse 63, 6438 Ibach")
  = Some (VObj [("addressStreet1", VStr "Gotthardstrasse 63, 6438 Ibach");
                ("addressStreet2", VStr EmptyString);
                ("addressCity", VStr EmptyString);
                ("addressState", VStr EmptyString);
                ("addressPostcode", VStr EmptyString);
                ("addressCountry", VStr EmptyString);
                ("addressLat", VNull);
                ("addressLng", VNull)]).
Proof. reflexivity. Qed.

Example address_standard_format :
  normalizeAddressValue
    (VObj [("street1", VStr "Gotthardstrasse 63"); ("city", VStr "Ibach");
           ("postalCode", VStr "6438"); ("country", VStr "Switzerland")])
  = Some (VObj [("addressStreet1", VStr "Gotthardstrasse 63");
                ("addressStreet2", VStr EmptyString);
                ("addressCity", VStr "Ibach");
                ("addressState", VStr EmptyString);
                ("addressPostcode", VStr "6438");
                ("addressCountry", VStr "Switzerland");
                ("addressLat", VNull);
                ("addressLng", VNull)]).
Proof. reflexivity. Qed.

Example address_line_format :
  normalizeAddressValue
    (VObj [("addressLine1", VStr "Bahnhofstrasse 27");
           ("addressLine2", VStr "c/o Aukofer");
           ("city", VStr "Möhlin"); ("state", VStr "AG");
           ("zip", VStr "4313"); ("country", VStr "Schweiz")])
  = Some (VObj [("addressStreet1", VStr "Bahnhofstrasse 27");
                ("addressStreet2", VStr "c/o Aukofer");
                ("addressCity", VStr "Möhlin");
                ("addressState", VStr "AG");
                ("addressPostcode", VStr "4313");
                ("addressCountry", VStr "Schweiz");
                ("addressLat", VNull);
                ("addressLng", VNull)]).
Proof. reflexivity. Qed.

Example address_as_is :
  let input := VObj [("addressStreet1", VStr "Gotthardstrasse 63");
                     ("addressStreet2", VStr EmptyString);
                     ("addressCity", VStr "Ibach");
                     ("addressState", VStr "Schwyz");
                     ("addressPostcode", VStr "6438");
                     ("addressCountry", VStr "Switzerland");
                     ("addressLat", VNull);
                     ("addressLng", VNull)] in
  normalizeAddressValue input = Some input.
Proof. reflexivity. Qed.

Example links_simple_string :
  normalizeLinksValue (VStr "https://schweglerbeck.ch")
  = Some (VObj [("primaryLinkUrl", VStr "https://schweglerbeck.ch");
                ("primaryLinkLabel", VStr EmptyString);
                ("secondaryLinks", VNull)]).
Proof. reflexivity. Qed.

Example links_as_is :
  let input := VObj [("primaryLinkUrl", VStr "https://schweglerbeck.ch");
                     ("primaryLinkLabel", VStr "Website");
                     ("secondaryLinks", VNull)] in
  normalizeLinksValue input = Some input.
Proof. reflexivity. Qed.

Lemma stable_twice f : stable f -> forall v, twice f v = f v.
Proof.
  intros Hs v. unfold twice. destruct (f v) as [r|] eqn:E; [|reflexivity].
  exact (Hs _ _ E).
Qed.

Lemma normalizeEmailsValue_stable addressOf :
  stable (normalizeEmailsValue addressOf).
Proof.
  intros v r Hv. destruct v as [| | | | s | [|first rest] | fields];
    cbn in Hv; try discriminate.
  - now injection Hv as <-.
  - now injection Hv as <-.
  - destruct (has "primaryEmail" fields) eqn:E; [|discriminate].
    injection Hv as <-. cbn. now rewrite E.
Qed.

Lemma normalizePhonesValue_stable : stable normalizePhonesValue.
Proof.
  intros v r Hv. destruct v as [| | | | s | [|first rest] | fields];
    cbn in Hv; try discriminate.
  - now injection Hv as <-.
  - destruct (phoneEntry first) as [[[number countryCode] callingCode]|];
      [|discriminate].
    destruct (traverse phoneEntry rest); [|discriminate].
    now injection Hv as <-.
  - destruct (has "primaryPhoneNumber" fields) eqn:E; [|discriminate].
    injection Hv as <-. cbn. now rewrite E.
Qed.

Lemma normalizeAddressValue_stable : stable normalizeAddressValue.
Proof.
  intros v r Hv. destruct v as [| | | | s | items | fields];
    cbn in Hv; try discriminate.
  - now injection Hv as <-.
  - destruct (has "addressStreet1" fields) eqn:E.
    + injection Hv as <-. cbn. now rewrite E.
    + now injection Hv as <-.
Qed.

Lemma normalizeLinksValue_stable : stable normalizeLinksValue.
Proof.
  intros v r Hv. destruct v as [| | | | s | [|first rest] | fields];
    cbn in Hv; try discriminate.
  - now injection Hv as <-.
  - destruct (linkEntry first) as [[url label]|]; [|discriminate].
    destruct (traverse linkEntry rest); [|discriminate].
    now injection Hv as <-.
  - destruct (has "primaryLinkUrl" fields) eqn:E; [|discriminate].
    injection Hv as <-. cbn. now rewrite E.
Qed.

(** C7. Each of the four normalizations, applied to its own result,
    gives that result again, for every input; and an object that already
    has the primary key of its shape is returned unchanged. *)
Theorem normalization_idempotent :
  (forall addressOf v,
     twice (normalizeEmailsValue addressOf) v = normalizeEmailsValue addressOf v)
  /\ (forall v, twice normalizePhonesValue v = normalizePhonesValue v)
  /\ (forall v, twice normalizeAddressValue v = normalizeAddressValue v)
  /\ (forall v, twice normalizeLinksValue v = normalizeLinksValue v)
  /\ (forall addressOf fields,
        has "primaryEmail" fields = true ->
        normalizeEmailsValue addressOf (VObj fields) = Some (VObj fields))
  /\ (forall fields,
        has "primaryPhoneNumber" fields = true ->
        normalizePhonesValue (VObj fields) = Some (VObj fields))
  /\ (forall fields,
        has "addressStreet1" fields = true ->
        normalizeAddressValue (VObj fields) = Some (VObj fields))
  /\ (forall fields,
        has "primaryLinkUrl" fields = true ->
        normalizeLinksValue (VObj fields) = Some (VObj fields)).
Proof.
  split; [intros a; apply stable_twice, normalizeEmailsValue_stable|].
  split; [apply stable_twice, normalizePhonesValue_stable|].
  split; [apply stable_twice, normalizeAddressValue_stable|].
  split; [apply stable_twice, normalizeLinksValue_stable|].
  repeat split; intros; cbn; now rewrite H.
Qed.

Lemma normalization_idempotent_witness :
  has "addressStreet1" [("addressStreet1", VStr "Gotthardstrasse 63")] = true
  /\ normalizeAddressValue (VObj [("addressStreet1", VStr "Gotthardstrasse 63")])
     = Some (VObj [("addressStreet1", VStr "Gotthardstrasse 63")])
  /\ twice normalizePhonesValue
       (VArr [VStr "+41 44 123 45 67"; VStr "+41 44 987 65 43"])
     = normalizePhonesValue
         (VArr [VStr "+41 44 123 45 67"; VStr "+41 44 987 65 43"]).
Proof.
  destruct normalization_idempotent
    as (_ & Hphones & _ & _ & _ & _ & Haddress & _).
  split; [reflexivity|].
  split; [apply Haddress; reflexivity | apply Hphones].
Defined.

End FieldNormalizationFacts.

(** ** More on the authorization page *)

Module AuthorizePageMore.
Import AuthorizePage AuthorizePageFacts HtmlDecode.

Lemma substituteEntities_app (a b : string) :
  substituteEntities (a +:+ b) = substituteEntities a +:+ substituteEntities b.
Proof.
  induction a as [|c a IH]; [reflexivity|].
  rewrite append_cons. cbn [substituteEntities]. now rewrite IH, append_assoc.
Qed.

Lemma decodeEntities_entity (c : ascii) (rest : string) :
  decodeEntities (entity c +:+ rest) = String c (decodeEntities rest).
Proof. destruct c as [[] [] [] [] [] [] [] []]; reflexivity. Qed.

Lemma decodeEntities_substituteEntities (s : string) :
  decodeEntities (substituteEntities s) = s.
Proof.
  induction s as [|c s IH]; [reflexivity|].
  cbn [substituteEntities]. now rewrite decodeEntities_entity, IH.
Qed.

Lemma decodeEntities_escapeHtml (s : string) :
  decodeEntities (escapeHtml (Some s)) = s.
Proof.
  rewrite escapeHtml_substitute. apply decodeEntities_substituteEntities.
Qed.

(** X1. Escaping loses nothing: reading the five entities back gives the
    text that was escaped, so two different texts never escape to the
    same one. *)
Theorem escapeHtml_decodes :
  (forall s : string, decodeEntities (escapeHtml (Some s)) = s)
  /\ (forall s t : string, escapeHtml (Some s) = escapeHtml (Some t) -> s = t).
Proof.
  split; [exact decodeEntities_escapeHtml|].
  intros s t E.
  rewrite <- (decodeEntities_escapeHtml s), <- (decodeEntities_escapeHtml t).
  now rewrite E.
Qed.

Lemma escapeHtml_decodes_witness :
  escapeHtml (Some "a<b") = escapeHtml (Some "a<b") /\ "a<b" = "a<b".
Proof.
  split; [reflexivity|].
  exact (proj2 escapeHtml_decodes "a<b" "a<b" eq_refl).
Defined.

Lemma length_app (a b : string) :
  String.length (a +:+ b) = (String.length a + String.length b)%nat.
Proof.
  induction a as [|c a IH]; [reflexivity|].
  rewrite append_cons. cbn [String.length]. now rewrite IH.
Qed.

Lemma entity_plain (c : ascii) :
  is_special c = false -> entity c = String c EmptyString.
Proof. destruct c as [[] [] [] [] [] [] [] []]; (reflexivity || discriminate). Qed.

Lemma entity_longer (c : ascii) :
  is_special c = true -> (1 < String.length (entity c))%nat.
Proof.
  destruct c as [[] [] [] [] [] [] [] []]; vm_compute; intros E;
    first [discriminate E | lia].
Qed.

Lemma entity_length (c : ascii) : (1 <= String.length (entity c))%nat.
Proof. destruct c as [[] [] [] [] [] [] [] []]; vm_compute; lia. Qed.

Lemma substituteEntities_length (s : string) :
  (String.length s <= String.length (substituteEntities s))%nat.
Proof.
  induction s as [|c s IH]; [reflexivity|].
  cbn [substituteEntities String.length]. rewrite length_app.
  pose proof (entity_length c). lia.
Qed.

Lemma escapeHtml_plain (s : string) :
  Entropy.all_chars (fun c => negb (is_special c)) s = true ->
  escapeHtml (Some s) = s.
Proof.
  rewrite escapeHtml_substitute.
  induction s as [|c s IH]; [reflexivity|].
  cbn [Entropy.all_chars substituteEntities].
  intros [Hc Hs]%andb_true_iff. apply negb_true_iff in Hc.
  rewrite (entity_plain c Hc), append_cons. cbn [String.append].
  now rewrite (IH Hs).
Qed.

(** X2. A text comes out of [escapeHtml] unchanged exactly when it holds
    none of the five characters; and escaping never shortens a text. *)
Theorem escapeHtml_fixes_plain_text (s : string) :
  (escapeHtml (Some s) = s
   <-> Entropy.all_chars (fun c => negb (is_special c)) s = true)
  /\ (String.length s <= String.length (escapeHtml (Some s)))%nat.
Proof.
  rewrite escapeHtml_substitute. split; [|apply substituteEntities_length].
  induction s as [|c s IH]; [now split|].
  cbn [substituteEntities Entropy.all_chars].
  destruct (is_special c) eqn:Hc; cbn [negb andb].
  - split; [|discriminate]. intros E.
    apply (f_equal String.length) in E. rewrite length_app in E.
    cbn [String.length] in E.
    pose proof (entity_longer c Hc). pose proof (substituteEntities_length s). lia.
  - rewrite (entity_plain c Hc), append_cons. cbn [String.append].
    rewrite <- IH. split; [now intros [= E] | now intros ->].
Qed.

Lemma escapeHtml_fixes_plain_text_witness :
  Entropy.all_chars (fun c => negb (is_special c)) "mcp:tools" = true
  /\ escapeHtml (Some "mcp:tools") = "mcp:tools".
Proof.
  split; [reflexivity|].
  apply (proj1 (escapeHtml_fixes_plain_text "mcp:tools")). reflexivity.
Defined.

(** Escaping a text made of two parts is escaping the parts. *)
Lemma escapeHtml_app (a b : string) :
  escapeHtml (Some (a +:+ b)) = escapeHtml (Some a) +:+ escapeHtml (Some b).
Proof. rewrite !escapeHtml_substitute. apply substituteEntities_app. Qed.

Lemma page_after_errorHtml_split :
  page_after_errorHtml = beforeFields +:+ hiddenInput "state".
Proof. vm_compute. reflexivity. Qed.

Lemma page_after_state_split :
  page_after_state = dq +:+ betweenFields +:+ hiddenInput "redirect_uri".
Proof. vm_compute. reflexivity. Qed.

Lemma page_after_redirectUri_split :
  page_after_redirectUri = dq +:+ betweenFields +:+ hiddenInput "code_challenge".
Proof. vm_compute. reflexivity. Qed.

Lemma page_tail_split : page_tail = dq +:+ afterFields.
Proof. vm_compute. reflexivity. Qed.

Lemma generateAuthorizePage_fields (o : PageOptions) :
  exists before v1 v2 v3 : string,
    generateAuthorizePage o
    = before
      +:+ hiddenInput "state" +:+ v1 +:+ dq +:+ betweenFields
      +:+ hiddenInput "redirect_uri" +:+ v2 +:+ dq +:+ betweenFields
      +:+ hiddenInput "code_challenge" +:+ v3 +:+ dq +:+ afterFields
    /\ markup v1 = EmptyString
    /\ markup v2 = EmptyString
    /\ markup v3 = EmptyString
    /\ decodeEntities v1 = or_else (state o) EmptyString
    /\ decodeEntities v2 = or_else (redirectUri o) EmptyString
    /\ decodeEntities v3 = or_else (codeChallenge o) EmptyString.
Proof.
  exists (page_head
          +:+ escapeHtml (Some (or_else (clientName o) "Unknown Application"))
          +:+ page_after_clientName +:+ scopeList o +:+ page_after_scopeList
          +:+ errorHtml o +:+ beforeFields),
         (escapeHtml (Some (or_else (state o) EmptyString))),
         (escapeHtml (Some (or_else (redirectUri o) EmptyString))),
         (escapeHtml (Some (or_else (codeChallenge o) EmptyString))).
  split.
  { unfold generateAuthorizePage.
    rewrite page_after_errorHtml_split, page_after_state_split,
      page_after_redirectUri_split, page_tail_split.
    now rewrite !append_assoc. }
  rewrite !markup_escapeHtml.
  rewrite !decodeEntities_escapeHtml. repeat split.
Qed.

(** X3. The form carries the OAuth state, the redirect URI and the PKCE
    challenge in three consecutive hidden fields. The value written in
    each holds no quote or angle bracket, so it ends at the quote the
    template closes it with, and read back it is the text the page was
    given. *)
Theorem hidden_fields_round_trip (o : PageOptions) :
  exists before v1 v2 v3 : string,
    generateAuthorizePage o
    = before
      +:+ hiddenInput "state" +:+ v1 +:+ dq +:+ betweenFields
      +:+ hiddenInput "redirect_uri" +:+ v2 +:+ dq +:+ betweenFields
      +:+ hiddenInput "code_challenge" +:+ v3 +:+ dq +:+ afterFields
    /\ markup v1 = EmptyString
    /\ markup v2 = EmptyString
    /\ markup v3 = EmptyString
    /\ decodeEntities v1 = or_else (state o) EmptyString
    /\ decodeEntities v2 = or_else (redirectUri o) EmptyString
    /\ decodeEntities v3 = or_else (codeChallenge o) EmptyString.
Proof. exact (generateAuthorizePage_fields o). Qed.

End AuthorizePageMore.

(** ** More on the OAuth provider *)

Module OAuthMore.
Import OAuth OAuthFacts.

Section WithURL.
Context `{URLApi}.

(** *** Clients *)

(** X4. A client that was registered is found again under its
    identifier, with the secret and the issue time (in seconds) it was
    given; registering touches no other client and none of the code or
    token stores. *)
Theorem registerClient_then_getClient
    (this : Provider) (md : ClientMetadata) (id sec : string) (now : Z) :
  let r := registerClient md id sec now this in
  let client := {| metadata := md; client_id := id; client_secret := sec;
                   client_id_issued_at := now / 1000 |} in
  r.1 = Returned client
  /\ getClient id r.2 = (Returned (Some client), r.2)
  /\ (forall id', id' <> id -> (getClient id' r.2).1 = (getClient id' this).1)
  /\ _codes r.2 = _codes this
  /\ _tokens r.2 = _tokens this
  /\ _refreshTokens r.2 = _refreshTokens this.
Proof.
  intros r client. subst r client.
  unfold registerClient, getClient. run_method. cbn [fst snd].
  cbn [_clients _codes _tokens _refreshTokens with_clients].
  rewrite lookup_insert_eq. repeat split.
  intros id' Hne. now rewrite lookup_insert_ne.
Qed.

(** *** Authorization codes *)

Lemma challengeForAuthorizationCode_fresh this client code now d :
  _codes this !! code = Some d ->
  now <= code_expiresAt d ->
  challengeForAuthorizationCode client code now this
  = (Returned (code_codeChallenge d), this).
Proof.
  intros E Ht. unfold challengeForAuthorizationCode. run_method. rewrite E.
  destruct (Z.gtb_spec now (code_expiresAt d)); [lia | reflexivity].
Qed.

(** X5. Asking for the PKCE challenge of a code does not use the code up:
    for a code issued by [handleAuthorizeSubmit], any client asking
    before the code expires gets the challenge the form carried, the
    provider stays as it was, and the exchange that follows still
    returns tokens. *)
Theorem challenge_leaves_code_exchangeable
    (this : Provider) (fetch : Fetch) (req : Body) (code : string) (t0 : Z)
    (k r : string) (client : Client) (t1 t2 t2' : Z) (at_ rt : string) :
  truthy_value (api_key req) = Some k ->
  truthy_value (redirect_uri req) = Some r ->
  (validateTwentyApiKey fetch k this).1 = Returned true ->
  t1 <= t0 + authCodeTTL this * 1000 ->
  t2 <= t0 + authCodeTTL this * 1000 ->
  let stored := (handleAuthorizeSubmit fetch req code t0 this).2 in
  challengeForAuthorizationCode client code t1 stored
  = (Returned (code_challenge req), stored)
  /\ exists tokens,
       (exchangeAuthorizationCode client code None None None t2 t2' at_ rt
          (challengeForAuthorizationCode client code t1 stored).2).1
       = Returned tokens.
Proof.
  intros Hk Hr Hv Ht1 Ht2 stored.
  assert (Hs : _codes stored !! code = Some (issuedCode this req k r t0)).
  { subst stored. rewrite (handleAuthorizeSubmit_stores _ _ _ _ _ _ _ Hk Hr Hv).
    cbn [_codes with_codes]. apply lookup_insert_eq. }
  rewrite (challengeForAuthorizationCode_fresh _ client _ t1 _ Hs Ht1).
  split; [reflexivity|]. cbn [snd].
  rewrite (exchangeAuthorizationCode_fresh _ client _ None None None t2 t2'
             at_ rt _ Hs Ht2).
  eauto.
Qed.

(** X6. [challengeForAuthorizationCode] on a code the store does not
    have throws as invalid and changes nothing; on an expired code it
    throws as expired and deletes the code, so that the exchange
    afterwards finds no code. *)
Theorem challengeForAuthorizationCode_rejections
    (this : Provider) (client : Client) (code : string) (now : Z) :
  let result := challengeForAuthorizationCode client code now this in
  (_codes this !! code = None ->
     result = (Thrown "Invalid authorization code", this))
  /\ (forall d,
        _codes this !! code = Some d ->
        now > code_expiresAt d ->
        result = (Thrown "Authorization code expired",
                  with_codes (delete code) this)
        /\ forall client' v rd res t t' at_ rt,
             exchangeAuthorizationCode client' code v rd res t t' at_ rt result.2
             = (Thrown "Invalid authorization code", result.2)).
Proof.
  intros result. subst result. split.
  - intros E. unfold challengeForAuthorizationCode. run_method. now rewrite E.
  - intros d E Ht.
    assert (Hc : challengeForAuthorizationCode client code now this
                 = (Thrown "Authorization code expired",
                    with_codes (delete code) this)).
    { unfold challengeForAuthorizationCode. run_method. rewrite E.
      destruct (Z.gtb_spec now (code_expiresAt d)); [reflexivity | lia]. }
    rewrite Hc. split; [reflexivity|]. intros. cbn [snd].
    apply exchangeAuthorizationCode_missing.
    cbn [_codes with_codes]. apply lookup_delete_eq.
Qed.

(** *** Access tokens *)

Lemma verifyAccessToken_valid this token now d :
  _tokens this !! token = Some d ->
  now / 1000 <= tok_expiresAt d ->
  tok_resource d = None ->
  verifyAccessToken token now this
  = (Returned {| info_token := token;
                 info_clientId := tok_clientId d;
                 info_scopes := tok_scopes d;
                 info_expiresAt := tok_expiresAt d;
                 info_resource := None;
                 info_extra_twentyApiKey := tok_twentyApiKey d |}, this).
Proof.
  intros E Ht Hres. unfold verifyAccessToken. run_method. rewrite E.
  destruct (Z.gtb_spec (now / 1000) (tok_expiresAt d)); [lia|].
  now rewrite Hres.
Qed.

(** X7. The access token minted for a code (without a resource) verifies
    from then on until [accessTokenTTL] seconds after the second it was
    minted in, that second included: verification returns the caller's
    client id, the code's scopes and the CRM API key bound to the code,
    and leaves the provider unchanged. One second later it throws as
    expired. *)
Theorem minted_token_validity_window
    (this : Provider) (client : Client) (code : string) (d : CodeData)
    (v rd : option string) (t1 t1' : Z) (at_ rt : string) (now : Z) :
  _codes this !! code = Some d ->
  t1 <= code_expiresAt d ->
  let minted :=
    (exchangeAuthorizationCode client code v rd None t1 t1' at_ rt this).2 in
  let expiry := t1' / 1000 + accessTokenTTL this in
  (now / 1000 <= expiry ->
     verifyAccessToken at_ now minted
     = (Returned {| info_token := at_;
                    info_clientId := client_id client;
                    info_scopes := code_scopes d;
                    info_expiresAt := expiry;
                    info_resource := None;
                    info_extra_twentyApiKey := code_twentyApiKey d |}, minted))
  /\ (now / 1000 > expiry ->
      (verifyAccessToken at_ now minted).1 = Thrown "Access token expired").
Proof.
  intros Hd Ht minted expiry. subst minted.
  rewrite (exchangeAuthorizationCode_fresh _ client _ v rd None _ t1' at_ rt _ Hd Ht).
  cbn [snd].
  set (minted := exchanged this client code d None t1' at_ rt).
  assert (Hm : _tokens minted !! at_
               = Some {| tok_clientId := client_id client;
                         tok_scopes := code_scopes d;
                         tok_expiresAt := expiry;
                         tok_twentyApiKey := code_twentyApiKey d;
                         tok_resource := None |}).
  { subst minted. unfold exchanged.
    cbn [_tokens with_refreshTokens with_tokens]. apply lookup_insert_eq. }
  split; intros Hnow.
  - now rewrite (verifyAccessToken_valid _ _ _ _ Hm Hnow eq_refl).
  - now rewrite (verifyAccessToken_expired _ _ _ _ Hm Hnow).
Qed.

(** *** The sweep *)

Lemma cleanup_returns this now :
  cleanup now this
  = (Returned tt,
     with_refreshTokens
       (filter (fun kv => ¬ (now / 1000 - rt_createdAt kv.2 > refreshTokenTTL this)))
       (with_tokens (filter (fun kv => ¬ (now / 1000 > tok_expiresAt kv.2)))
          (with_codes (filter (fun kv => ¬ (now > code_expiresAt kv.2))) this))).
Proof. reflexivity. Qed.

(** X8. [cleanup] removes exactly what has expired at the time it is
    given: a code stays if and only if the time in milliseconds is not
    past its expiry, an access token if and only if the time in seconds
    is not past its expiry, a refresh token if and only if its age in
    seconds does not exceed [refreshTokenTTL]; clients and settings are
    untouched and nothing is thrown. *)
Theorem cleanup_removes_exactly_expired (this : Provider) (now : Z) :
  let swept := (cleanup now this).2 in
  (cleanup now this).1 = Returned tt
  /\ (forall c d,
        _codes swept !! c = Some d
        <-> _codes this !! c = Some d /\ now <= code_expiresAt d)
  /\ (forall t d,
        _tokens swept !! t = Some d
        <-> _tokens this !! t = Some d /\ now / 1000 <= tok_expiresAt d)
  /\ (forall t d,
        _refreshTokens swept !! t = Some d
        <-> _refreshTokens this !! t = Some d
            /\ now / 1000 - rt_createdAt d <= refreshTokenTTL this)
  /\ _clients swept = _clients this
  /\ same_settings swept this.
Proof.
  intros swept. subst swept. rewrite cleanup_returns. cbn [fst snd].
  cbn [_codes _tokens _refreshTokens _clients with_refreshTokens with_tokens with_codes].
  split; [reflexivity|].
  split; [intros c d; rewrite map_lookup_filter_Some; cbn [snd];
          split; (intros [? ?]; split; [assumption | lia])|].
  split; [intros t d; rewrite map_lookup_filter_Some; cbn [snd];
          split; (intros [? ?]; split; [assumption | lia])|].
  split; [intros t d; rewrite map_lookup_filter_Some; cbn [snd];
          split; (intros [? ?]; split; [assumption | lia])|].
  split; reflexivity.
Qed.

Lemma filter_absorbs {A} (P Q : string * A -> Prop)
    `{!forall x, Decision (P x)} `{!forall x, Decision (Q x)}
    (m : gmap string A) :
  (forall x, P x -> Q x) ->
  filter P (filter Q m) = filter P m.
Proof.
  intros HPQ. apply map_eq. intros i. apply option_eq. intros x.
  rewrite !map_lookup_filter_Some.
  split; [intros [[? ?] ?]; auto | intros [? ?]; auto].
Qed.

(** X9. Sweeping twice is sweeping once at the later time: a [cleanup]
    followed by a [cleanup] at the same or a later time leaves the
    provider a single [cleanup] at that later time leaves. In particular
    repeating a sweep at the same time changes nothing. *)
Theorem cleanup_later_absorbs (this : Provider) (t t' : Z) :
  t <= t' ->
  (cleanup t' (cleanup t this).2).2 = (cleanup t' this).2.
Proof.
  intros Hle. rewrite !cleanup_returns. cbn [snd].
  assert (Hs : t / 1000 <= t' / 1000) by (apply Z.div_le_mono; lia).
  unfold with_refreshTokens, with_tokens, with_codes.
  cbn [twentyBaseUrl _clients _codes _tokens _refreshTokens
       accessTokenTTL authCodeTTL refreshTokenTTL].
  f_equal; apply filter_absorbs; intros [k d]; cbn [snd]; lia.
Qed.

(** X10. The sweep and the checks made on use agree on what is expired:
    right after a [cleanup], at the time of the sweep, no code exchange
    or challenge lookup throws as expired, no access token verification
    throws as expired, and no refresh exchange throws as expired. *)
Theorem cleanup_agrees_with_checks_on_use
    (this : Provider) (now : Z) (client : Client) (key : string) :
  let swept := (cleanup now this).2 in
  (forall v rd res now' at_ rt,
     (exchangeAuthorizationCode client key v rd res now now' at_ rt swept).1
     <> Thrown "Authorization code expired")
  /\ (challengeForAuthorizationCode client key now swept).1
     <> Thrown "Authorization code expired"
  /\ (verifyAccessToken key now swept).1 <> Thrown "Access token expired"
  /\ (forall scopes res at_,
        (exchangeRefreshToken client key scopes res now at_ swept).1
        <> Thrown "Refresh token expired").
Proof.
  intros swept.
  assert (Hc : forall d, _codes swept !! key = Some d -> now <= code_expiresAt d).
  { subst swept. rewrite cleanup_returns. cbn [snd]. intros d.
    cbn [_codes with_refreshTokens with_tokens with_codes].
    rewrite map_lookup_filter_Some. cbn [snd]. lia. }
  assert (Ht : forall d, _tokens swept !! key = Some d -> now / 1000 <= tok_expiresAt d).
  { subst swept. rewrite cleanup_returns. cbn [snd]. intros d.
    cbn [_tokens with_refreshTokens with_tokens with_codes].
    rewrite map_lookup_filter_Some. cbn [snd]. lia. }
  assert (Hr : forall d, _refreshTokens swept !! key = Some d ->
                         now / 1000 - rt_createdAt d <= refreshTokenTTL swept).
  { subst swept. rewrite cleanup_returns. cbn [snd]. intros d.
    cbn [_refreshTokens refreshTokenTTL with_refreshTokens with_tokens with_codes].
    rewrite map_lookup_filter_Some. cbn [snd]. lia. }
  clearbody swept.
  split; [|split; [|split]].
  - intros v rd res now' at_ rt.
    destruct (_codes swept !! key) as [d|] eqn:E.
    + now rewrite (exchangeAuthorizationCode_fresh _ _ _ _ _ _ _ _ _ _ _ E (Hc _ eq_refl)).
    + now rewrite exchangeAuthorizationCode_missing.
  - destruct (_codes swept !! key) as [d|] eqn:E.
    + now rewrite (challengeForAuthorizationCode_fresh _ _ _ _ _ E (Hc _ eq_refl)).
    + unfold challengeForAuthorizationCode. run_method. now rewrite E.
  - unfold verifyAccessToken. run_method.
    destruct (_tokens swept !! key) as [d|] eqn:E; [|discriminate].
    specialize (Ht _ eq_refl).
    destruct (Z.gtb_spec (now / 1000) (tok_expiresAt d)); [lia|].
    destruct (truthy_value (tok_resource d)) as [r|]; [|discriminate].
    destruct (newURL r); discriminate.
  - intros scopes res at_.
    destruct (_refreshTokens swept !! key) as [d|] eqn:E.
    + destruct (decide (rt_clientId d = client_id client)) as [He|Hne].
      * now rewrite (exchangeRefreshToken_valid _ _ _ _ _ _ _ _ E He (Hr _ eq_refl)).
      * now rewrite (exchangeRefreshToken_foreign _ _ _ _ _ _ _ _ E Hne).
    + now rewrite exchangeRefreshToken_unknown.
Qed.

(** *** Revocation *)

Lemma revokeToken_access this client t hint d :
  _tokens this !! t = Some d ->
  tok_clientId d = client_id client ->
  hint_allows hint "access_token" = true ->
  revokeToken client {| token := t; token_type_hint := hint |} this
  = (Returned tt, with_tokens (delete t) this).
Proof.
  intros E Ho Hh. unfold revokeToken. run_method.
  cbn [token token_type_hint]. rewrite Hh, E.
  apply String.eqb_eq in Ho. now rewrite Ho.
Qed.

(** X11. Revoking an access token the requesting client owns, with no
    hint or the hint [access_token], deletes it: afterwards verification
    throws as invalid and [getApiKeyForToken] answers [null]. The refresh
    tokens are left alone, also one stored under the same text. *)
Theorem revokeToken_revokes_access_token
    (this : Provider) (client : Client) (t : string) (hint : option string)
    (d : TokenData) :
  _tokens this !! t = Some d ->
  tok_clientId d = client_id client ->
  hint_allows hint "access_token" = true ->
  let result := revokeToken client {| token := t; token_type_hint := hint |} this in
  result.1 = Returned tt
  /\ _tokens result.2 !! t = None
  /\ (forall now, verifyAccessToken t now result.2
                  = (Thrown "Invalid access token", result.2))
  /\ getApiKeyForToken result.2 t = None
  /\ _refreshTokens result.2 = _refreshTokens this.
Proof.
  intros E Ho Hh result. subst result.
  rewrite (revokeToken_access _ _ _ _ _ E Ho Hh). cbn [fst snd].
  assert (Hgone : _tokens (with_tokens (delete t) this) !! t = None).
  { cbn [_tokens with_tokens]. apply lookup_delete_eq. }
  split; [reflexivity|]. split; [exact Hgone|].
  split.
  { intros now. unfold verifyAccessToken. run_method. now rewrite Hgone. }
  split; [|reflexivity].
  unfold getApiKeyForToken. now rewrite Hgone.
Qed.

(** X12. The hint restricts where [revokeToken] looks: when the hint is
    a non-empty text other than [access_token] the access tokens are
    left as they are, and when it is a non-empty text other than
    [refresh_token] the refresh tokens are; a hint that names neither
    kind makes the call do nothing at all. *)
Theorem revokeToken_hint_restricts
    (this : Provider) (client : Client) (request : OAuthTokenRevocationRequest) :
  let result := revokeToken client request this in
  (hint_allows (token_type_hint request) "access_token" = false ->
     _tokens result.2 = _tokens this)
  /\ (hint_allows (token_type_hint request) "refresh_token" = false ->
      _refreshTokens result.2 = _refreshTokens this)
  /\ (hint_allows (token_type_hint request) "access_token" = false ->
      hint_allows (token_type_hint request) "refresh_token" = false ->
      result = (Returned tt, this)).
Proof.
  intros result. subst result.
  unfold revokeToken, revokeAsRefreshToken. run_method.
  destruct (hint_allows (token_type_hint request) "access_token");
    destruct (hint_allows (token_type_hint request) "refresh_token");
    repeat first
      [ progress cbn beta iota
      | match goal with
        | |- context [match ?m !! ?t with _ => _ end] => destruct (m !! t)
        | |- context [if String.eqb ?a ?b then _ else _] => destruct (String.eqb a b)
        end ];
    cbn [fst snd]; repeat split; intros; (reflexivity || discriminate).
Qed.

Lemma revokeToken_refresh this client t hint d :
  _refreshTokens this !! t = Some d ->
  rt_clientId d = client_id client ->
  hint_allows hint "refresh_token" = true ->
  (forall d', _tokens this !! t = Some d' -> tok_clientId d' <> client_id client) ->
  revokeToken client {| token := t; token_type_hint := hint |} this
  = (Returned tt, with_refreshTokens (delete t) this).
Proof.
  intros E Ho Hh Hna.
  assert (Hhalf : revokeAsRefreshToken client
                    {| token := t; token_type_hint := hint |} this
                  = (Returned tt, with_refreshTokens (delete t) this)).
  { unfold revokeAsRefreshToken. run_method.
    cbn [token token_type_hint]. rewrite Hh, E.
    apply String.eqb_eq in Ho. now rewrite Ho. }
  unfold revokeToken. run_method. cbn [token token_type_hint].
  destruct (hint_allows hint "access_token"); [|exact Hhalf].
  destruct (_tokens this !! t) as [d'|]; [|exact Hhalf].
  destruct (String.eqb_spec (tok_clientId d') (client_id client)) as [He|Hne];
    [|exact Hhalf].
  exfalso. now apply (Hna d').
Qed.

(** X13. Revoking a refresh token the requesting client owns (the text
    not being an access token of that client as well), with no hint or
    the hint [refresh_token], deletes it, so that a refresh exchange with
    it throws as invalid from then on. The access tokens are all kept:
    those minted from the refresh token stay valid. *)
Theorem revokeToken_revokes_refresh_token
    (this : Provider) (client : Client) (t : string) (hint : option string)
    (d : RefreshData) :
  _refreshTokens this !! t = Some d ->
  rt_clientId d = client_id client ->
  hint_allows hint "refresh_token" = true ->
  (forall d', _tokens this !! t = Some d' -> tok_clientId d' <> client_id client) ->
  let result := revokeToken client {| token := t; token_type_hint := hint |} this in
  result.1 = Returned tt
  /\ (forall client' scopes res now at_,
        exchangeRefreshToken client' t scopes res now at_ result.2
        = (Thrown "Invalid refresh token", result.2))
  /\ _tokens result.2 = _tokens this.
Proof.
  intros E Ho Hh Hna result. subst result.
  rewrite (revokeToken_refresh _ _ _ _ _ E Ho Hh Hna). cbn [fst snd].
  split; [reflexivity|]. split; [|reflexivity].
  intros. apply exchangeRefreshToken_unknown.
  cbn [_refreshTokens with_refreshTokens]. apply lookup_delete_eq.
Qed.

(** *** Refreshing *)

(** X14. A refresh token is not used up and not rotated: a refresh
    exchange that returns leaves the refresh tokens, the codes and the
    clients as they were, returns no new refresh token, adds or replaces
    only the access token it minted, and can be repeated with the same
    refresh token for as long as that is within its lifetime. *)
Theorem refresh_token_reusable
    (this : Provider) (client : Client) (rt : string)
    (scopes : option (list string)) (res : option URL) (now : Z) (at_ : string)
    (tokens : OAuthTokens) :
  let result := exchangeRefreshToken client rt scopes res now at_ this in
  result.1 = Returned tokens ->
  exists d : RefreshData,
    _refreshTokens this !! rt = Some d
    /\ refresh_token tokens = None
    /\ _refreshTokens result.2 = _refreshTokens this
    /\ _codes result.2 = _codes this
    /\ _clients result.2 = _clients this
    /\ (forall t, t <> at_ -> _tokens result.2 !! t = _tokens this !! t)
    /\ (forall scopes' res' now' at',
          now' / 1000 - rt_createdAt d <= refreshTokenTTL this ->
          exists tokens',
            (exchangeRefreshToken client rt scopes' res' now' at' result.2).1
            = Returned tokens').
Proof.
  intros result Hr. subst result.
  destruct (exchangeRefreshToken_returned _ _ _ _ _ _ _ _ Hr) as (d & E & He & Ht).
  rewrite (exchangeRefreshToken_valid _ _ _ scopes res _ at_ _ E He Ht) in Hr |- *.
  cbn [fst snd] in *. injection Hr as <-.
  exists d. split; [assumption|]. split; [reflexivity|].
  split; [reflexivity|]. split; [reflexivity|]. split; [reflexivity|].
  split.
  - intros t Hne. cbn [_tokens with_tokens]. now rewrite lookup_insert_ne.
  - intros scopes' res' now' at' Ht'.
    erewrite exchangeRefreshToken_valid; [eauto | exact E | exact He | exact Ht'].
Qed.

(** X15. The access token a refresh exchange mints is bound to the
    caller's client id and to the CRM API key of the refresh token, and
    expires [accessTokenTTL] seconds after the second of the exchange;
    minted without a resource, it verifies at the time of the exchange
    and yields that key. *)
Theorem refreshed_token_binding
    (this : Provider) (client : Client) (rt : string)
    (scopes : option (list string)) (now : Z) (at_ : string)
    (tokens : OAuthTokens) :
  0 <= accessTokenTTL this ->
  let result := exchangeRefreshToken client rt scopes None now at_ this in
  result.1 = Returned tokens ->
  exists (d : RefreshData) (td : TokenData),
    _refreshTokens this !! rt = Some d
    /\ access_token tokens = at_
    /\ expires_in tokens = accessTokenTTL this
    /\ _tokens result.2 !! at_ = Some td
    /\ tok_clientId td = client_id client
    /\ tok_twentyApiKey td = rt_twentyApiKey d
    /\ tok_expiresAt td = now / 1000 + accessTokenTTL this
    /\ exists info,
         verifyAccessToken at_ now result.2 = (Returned info, result.2)
         /\ info_extra_twentyApiKey info = rt_twentyApiKey d
         /\ info_clientId info = client_id client.
Proof.
  intros Httl result Hr. subst result.
  destruct (exchangeRefreshToken_returned _ _ _ _ _ _ _ _ Hr) as (d & E & He & Ht).
  rewrite (exchangeRefreshToken_valid _ _ _ scopes None _ at_ _ E He Ht) in Hr |- *.
  cbn [fst snd] in *. injection Hr as <-.
  eexists d, _. split; [assumption|]. split; [reflexivity|]. split; [reflexivity|].
  split; [cbn [_tokens with_tokens]; apply lookup_insert_eq|].
  cbn [tok_clientId tok_twentyApiKey tok_expiresAt].
  split; [reflexivity|]. split; [reflexivity|]. split; [reflexivity|].
  eexists. split.
  - apply verifyAccessToken_valid.
    + cbn [_tokens with_tokens]. apply lookup_insert_eq.
    + cbn [tok_expiresAt]. lia.
    + reflexivity.
  - split; reflexivity.
Qed.

(** *** What every running provider satisfies *)

Section StoreInvariant.
Variable Pc : CodeData -> Prop.
Variable Pt : TokenData -> Prop.
Variable Pr : RefreshData -> Prop.

Hypothesis issue_ok :
  forall this req k r now, is_empty k = false -> Pc (issuedCode this req k r now).
Hypothesis exchange_ok :
  forall d cid exp created res,
    Pc d ->
    Pt {| tok_clientId := cid; tok_scopes := code_scopes d; tok_expiresAt := exp;
          tok_twentyApiKey := code_twentyApiKey d; tok_resource := res |}
    /\ Pr {| rt_clientId := cid; rt_scopes := code_scopes d;
             rt_twentyApiKey := code_twentyApiKey d; rt_createdAt := created |}.
Hypothesis refresh_ok :
  forall d cid scopes exp res,
    Pr d ->
    Pt {| tok_clientId := cid;
          tok_scopes := effectiveScopes scopes (rt_scopes d);
          tok_expiresAt := exp;
          tok_twentyApiKey := rt_twentyApiKey d; tok_resource := res |}.

Definition stores_satisfy (this : Provider) : Prop :=
  (forall c d, _codes this !! c = Some d -> Pc d)
  /\ (forall t d, _tokens this !! t = Some d -> Pt d)
  /\ (forall t d, _refreshTokens this !! t = Some d -> Pr d).

Lemma stores_satisfy_codes f this :
  (forall c d, f (_codes this) !! c = Some d -> Pc d) ->
  stores_satisfy this -> stores_satisfy (with_codes f this).
Proof. intros Hf (_ & Ht & Hr). repeat split; assumption. Qed.

Lemma stores_satisfy_tokens f this :
  (forall t d, f (_tokens this) !! t = Some d -> Pt d) ->
  stores_satisfy this -> stores_satisfy (with_tokens f this).
Proof. intros Hf (Hc & _ & Hr). repeat split; assumption. Qed.

Lemma stores_satisfy_refreshTokens f this :
  (forall t d, f (_refreshTokens this) !! t = Some d -> Pr d) ->
  stores_satisfy this -> stores_satisfy (with_refreshTokens f this).
Proof. intros Hf (Hc & Ht & _). repeat split; assumption. Qed.

Ltac kept Hb :=
  first
    [ intros ? ? [_ Hl]%lookup_delete_Some; now apply Hb in Hl
    | intros ? ? [Hl _]%map_lookup_filter_Some; now apply Hb in Hl ].

Lemma stores_satisfy_after (c : Call) this :
  stores_satisfy this -> stores_satisfy (after c this).
Proof.
  intros Hb.
  destruct c as [md id sec now | client params | fetch req code now
                | client code now | client code v r res now now' at_ rt
                | client rt scopes res now at_ | tok now | client request
                | now]; cbn [after].
  - exact Hb.
  - exact Hb.
  - unfold handleAuthorizeSubmit.
    destruct (truthy_value (api_key req)) as [k|] eqn:Hk; [|exact Hb].
    destruct (truthy_value (redirect_uri req)) as [r|] eqn:Hr; [|exact Hb].
    unfold bind at 1. rewrite validateTwentyApiKey_returns.
    destruct (match fetch _ with Returned response => ok response | Thrown _ => false end);
      cbn [negb]; [|exact Hb].
    run_method.
    assert (stores_satisfy (with_codes (insert code (issuedCode this req k r now)) this)).
    { apply stores_satisfy_codes; [|assumption].
      intros c' d' [[_ <-]|[_ Hl]]%lookup_insert_Some.
      - apply issue_ok. exact (truthy_value_nonempty _ _ Hk).
      - now apply Hb in Hl. }
    now destruct (newURL r).
  - unfold challengeForAuthorizationCode. run_method.
    destruct (_codes this !! code) as [d|]; [|exact Hb].
    destruct (now >? code_expiresAt d); [|exact Hb].
    apply stores_satisfy_codes; [kept Hb | assumption].
  - destruct (_codes this !! code) as [d|] eqn:E.
    2:{ now rewrite exchangeAuthorizationCode_missing. }
    destruct (Z_le_gt_dec now (code_expiresAt d)) as [Hle|Hgt].
    + rewrite (exchangeAuthorizationCode_fresh _ _ _ _ _ _ _ _ _ _ _ E Hle).
      cbn [snd]. unfold exchanged.
      assert (Hd : Pc d) by now apply Hb in E.
      apply stores_satisfy_refreshTokens.
      { intros t' d' [[_ <-]|[_ Hl]]%lookup_insert_Some.
        - now apply (exchange_ok d (client_id client) 0 (now' / 1000) None).
        - now apply Hb in Hl. }
      apply stores_satisfy_tokens.
      { intros t' d' [[_ <-]|[_ Hl]]%lookup_insert_Some.
        - now apply (exchange_ok d (client_id client) _ 0 _).
        - now apply Hb in Hl. }
      apply stores_satisfy_codes; [kept Hb | assumption].
    + rewrite (exchangeAuthorizationCode_expired _ _ _ _ _ _ _ _ _ _ _ E Hgt).
      apply stores_satisfy_codes; [kept Hb | assumption].
  - destruct (_refreshTokens this !! rt) as [d|] eqn:E.
    2:{ now rewrite exchangeRefreshToken_unknown. }
    destruct (decide (rt_clientId d = client_id client)) as [He|Hne].
    2:{ now rewrite (exchangeRefreshToken_foreign _ _ _ _ _ _ _ _ E Hne). }
    destruct (Z_le_gt_dec (now / 1000 - rt_createdAt d) (refreshTokenTTL this))
      as [Hle|Hgt].
    + rewrite (exchangeRefreshToken_valid _ _ _ _ _ _ _ _ E He Hle). cbn [snd].
      apply stores_satisfy_tokens; [|assumption].
      intros t' d' [[_ <-]|[_ Hl]]%lookup_insert_Some.
      * apply refresh_ok. now apply Hb in E.
      * now apply Hb in Hl.
    + rewrite (exchangeRefreshToken_expired _ _ _ _ _ _ _ _ E He Hgt).
      apply stores_satisfy_refreshTokens; [kept Hb | assumption].
  - unfold verifyAccessToken. run_method.
    destruct (_tokens this !! tok) as [d|]; [|exact Hb].
    destruct (now / 1000 >? tok_expiresAt d).
    + apply stores_satisfy_tokens; [kept Hb | assumption].
    + destruct (truthy_value (tok_resource d)) as [r|]; [|exact Hb].
      destruct (newURL r); exact Hb.
  - unfold revokeToken, revokeAsRefreshToken; run_method;
      repeat first
        [ progress cbn beta iota
        | match goal with
          | |- context [if hint_allows ?h ?k then _ else _] =>
              destruct (hint_allows h k)
          | |- context [match ?m !! ?t with _ => _ end] => destruct (m !! t)
          | |- context [if String.eqb ?a ?b then _ else _] =>
              destruct (String.eqb a b)
          end ];
      cbn [snd];
      first [ exact Hb
            | apply stores_satisfy_tokens; [kept Hb | assumption]
            | apply stores_satisfy_refreshTokens; [kept Hb | assumption] ].
  - rewrite cleanup_returns. cbn [snd].
    apply stores_satisfy_refreshTokens; [kept Hb|].
    apply stores_satisfy_tokens; [kept Hb|].
    apply stores_satisfy_codes; [kept Hb | assumption].
Qed.

Lemma reachable_stores_satisfy this : reachable this -> stores_satisfy this.
Proof.
  induction 1 as [options env | c this _ IH].
  - repeat split; intros ? ? Hl; cbn in Hl; now rewrite lookup_empty in Hl.
  - now apply stores_satisfy_after.
Qed.

End StoreInvariant.

(** X16. The only scope this provider ever grants is [mcp:tools]: in
    every state a provider can reach, each stored code and each refresh
    token carries exactly that scope list, and no access token carries
    any other scope, whatever scopes refresh exchanges asked for. *)
Theorem reachable_scopes_granted (this : Provider) :
  reachable this ->
  (forall c d, _codes this !! c = Some d -> code_scopes d = ["mcp:tools"])
  /\ (forall t d, _refreshTokens this !! t = Some d -> rt_scopes d = ["mcp:tools"])
  /\ (forall t d s, _tokens this !! t = Some d -> s ∈ tok_scopes d -> s = "mcp:tools").
Proof.
  intros Hreach.
  destruct (reachable_stores_satisfy
              (fun d => code_scopes d = ["mcp:tools"])
              (fun d => forall s, s ∈ tok_scopes d -> s = "mcp:tools")
              (fun d => rt_scopes d = ["mcp:tools"])) with (this := this)
    as (Hc & Ht & Hr); try assumption.
  - reflexivity.
  - intros d cid exp created res Hd. cbn. rewrite Hd. split; [|reflexivity].
    intros s Hs. now apply list_elem_of_singleton in Hs.
  - intros d cid scopes exp res Hd s. cbn [tok_scopes]. rewrite Hd.
    destruct scopes as [[|x l]|]; cbn [effectiveScopes];
      try (intros Hs; now apply list_elem_of_singleton in Hs).
    intros [Hin _]%list_elem_of_filter.
    apply includes_elem_of in Hin. now apply list_elem_of_singleton in Hin.
  - repeat split; eauto.
Qed.

(** X17. On a running provider [getApiKeyForToken] answers [null] only
    for a token the store does not hold: for every stored access token
    it answers the CRM API key bound to it. *)
Theorem getApiKeyForToken_known (this : Provider) (t : string) :
  reachable this ->
  getApiKeyForToken this t = (tok_twentyApiKey <$> _tokens this !! t).
Proof.
  intros Hreach. unfold getApiKeyForToken, truthy_value.
  destruct (_tokens this !! t) as [d|] eqn:E; [|reflexivity].
  pose proof (reachable_keys_bound _ Hreach) as (_ & Hb & _).
  cbn [fmap option_fmap option_map truthy]. now rewrite (Hb _ _ E).
Qed.


(** *** Submitting the form *)

(** The three ways [handleAuthorizeSubmit] can go. *)
Lemma handleAuthorizeSubmit_cases this fetch req code now :
  let result := handleAuthorizeSubmit fetch req code now this in
  (exists html, result = (Returned (Html 400 html), this))
  \/ (exists k r,
        truthy_value (api_key req) = Some k
        /\ truthy_value (redirect_uri req) = Some r
        /\ (validateTwentyApiKey fetch k this).1 = Returned true
        /\ result.2 = with_codes (insert code (issuedCode this req k r now)) this
        /\ ((newURL r = None /\ exists message, result.1 = Thrown message)
            \/ (exists u location,
                  newURL r = Some u /\ result.1 = Returned (Redirect location)))).
Proof.
  intros result. subst result.
  remember (handleAuthorizeSubmit fetch req code now this) as result eqn:Hres.
  unfold handleAuthorizeSubmit in Hres.
  destruct (truthy_value (api_key req)) as [k|] eqn:Hk; [|left; subst; eauto].
  destruct (truthy_value (redirect_uri req)) as [r|] eqn:Hr; [|left; subst; eauto].
  unfold bind at 1 in Hres. rewrite validateTwentyApiKey_returns in Hres.
  destruct (match fetch _ with Returned response => ok response | Thrown _ => false end)
    eqn:Hv; cbn [negb] in Hres; [|left; subst; eauto].
  right. exists k, r. split; [reflexivity|]. split; [reflexivity|].
  split; [rewrite validateTwentyApiKey_returns; cbn [fst]; now rewrite Hv|].
  revert Hres. run_method. destruct (newURL r) as [u|]; intros ->; cbn [fst snd].
  - split; [reflexivity|]. right. eauto.
  - split; [reflexivity|]. left. eauto.
Qed.

(** X19. Whatever [handleAuthorizeSubmit] writes as a page is an error
    page with status 400, and then the provider is unchanged. It
    redirects only after the CRM accepted the key and the code was
    stored with that key. In no case does it touch the clients, the
    access tokens, the refresh tokens or any other code. *)
Theorem handleAuthorizeSubmit_outcomes
    (this : Provider) (fetch : Fetch) (req : Body) (code : string) (now : Z) :
  let result := handleAuthorizeSubmit fetch req code now this in
  (forall status html,
     result.1 = Returned (Html status html) -> status = 400 /\ result.2 = this)
  /\ (forall location,
        result.1 = Returned (Redirect location) ->
        exists k,
          truthy_value (api_key req) = Some k
          /\ (validateTwentyApiKey fetch k this).1 = Returned true
          /\ (code_twentyApiKey <$> _codes result.2 !! code) = Some k)
  /\ _clients result.2 = _clients this
  /\ _tokens result.2 = _tokens this
  /\ _refreshTokens result.2 = _refreshTokens this
  /\ (forall code', code' <> code -> _codes result.2 !! code' = _codes this !! code').
Proof.
  intros result. subst result.
  destruct (handleAuthorizeSubmit_cases this fetch req code now)
    as [[html Hr] | (k & r & Hk & Hr & Hv & Hs & Hout)].
  - rewrite Hr. cbn [fst snd]. split; [now intros ? ? [= <- _]|].
    split; [discriminate|]. repeat split.
  - rewrite Hs.
    cbn [_clients _tokens _refreshTokens _codes with_codes].
    split.
    { intros status html Hp.
      destruct Hout as [[_ [m Hm]] | (u & l & _ & Hl)]; rewrite Hp in *; discriminate. }
    split.
    { intros location _. exists k. rewrite lookup_insert_eq. auto. }
    repeat split. intros code' Hne. now rewrite lookup_insert_ne.
Qed.

(** X20. The code is stored before the redirect URI is parsed: when the
    key is accepted and the submitted redirect URI is not a URL, the
    handler throws, yet the code it generated is in the store and can be
    exchanged for tokens bound to the submitted key. *)
Theorem handleAuthorizeSubmit_bad_redirect_keeps_code
    (this : Provider) (fetch : Fetch) (req : Body) (code : string) (now : Z)
    (k r : string) :
  truthy_value (api_key req) = Some k ->
  truthy_value (redirect_uri req) = Some r ->
  (validateTwentyApiKey fetch k this).1 = Returned true ->
  newURL r = None ->
  let result := handleAuthorizeSubmit fetch req code now this in
  (exists message, result.1 = Thrown message)
  /\ forall client t t' at_ rt,
       t <= now + authCodeTTL this * 1000 ->
       let exchange :=
         exchangeAuthorizationCode client code None None None t t' at_ rt result.2 in
       (exists tokens, exchange.1 = Returned tokens)
       /\ (tok_twentyApiKey <$> _tokens exchange.2 !! at_) = Some k.
Proof.
  intros Hk Hr Hv Hu result. subst result.
  set (result := handleAuthorizeSubmit fetch req code now this).
  assert (Hs : _codes result.2 !! code = Some (issuedCode this req k r now)).
  { subst result. rewrite (handleAuthorizeSubmit_stores _ _ _ _ _ _ _ Hk Hr Hv).
    cbn [_codes with_codes]. apply lookup_insert_eq. }
  split.
  - destruct (handleAuthorizeSubmit_cases this fetch req code now)
      as [[html Hp] | (k' & r' & Hk' & Hr' & _ & _ & Hout)];
      [fold result in Hp | fold result in Hout].
    + clear Hs. subst result. unfold handleAuthorizeSubmit in Hp. rewrite Hk, Hr in Hp.
      unfold bind at 1 in Hp. rewrite validateTwentyApiKey_returns in Hp, Hv.
      cbn [fst] in Hv. injection Hv as Hv. rewrite Hv in Hp. cbn [negb] in Hp.
      revert Hp. run_method. rewrite Hu. discriminate.
    + rewrite Hr in Hr'. injection Hr' as <-.
      destruct Hout as [[_ Hm] | (u & l & Hu' & _)]; [exact Hm | congruence].
  - intros client t t' at_ rt Ht exchange. subst exchange.
    rewrite (exchangeAuthorizationCode_fresh _ client _ None None None t t' at_ rt
               _ Hs Ht).
    cbn [fst snd]. split; [eauto|]. unfold exchanged.
    cbn [_tokens with_refreshTokens with_tokens]. now rewrite lookup_insert_eq.
Qed.

(** [validateTwentyApiKey] never throws and never changes the
    provider, whatever the fetch does; and it answers [true] only if the
    one request it makes, a GET of [/rest/people?limit=1] under the
    configured base URL with the key as bearer credential, was answered
    with a status from 200 to 299. *)
Lemma validateTwentyApiKey_never_throws
    (this : Provider) (fetch : Fetch) (apiKey : string) :
  exists valid : bool,
    validateTwentyApiKey fetch apiKey this = (Returned valid, this)
    /\ (valid = true ->
        exists response,
          fetch {| req_url := twentyBaseUrl this +:+ "/rest/people?limit=1";
                   req_method := "GET";
                   req_headers := [("Authorization", "Bearer " +:+ apiKey);
                                   ("Content-Type", "application/json")] |}
          = Returned response
          /\ 200 <= status response <= 299).
Proof.
  rewrite validateTwentyApiKey_returns. eexists. split; [reflexivity|].
  destruct (fetch _) as [response|e]; [|discriminate].
  intros Hok. exists response. split; [reflexivity|].
  unfold ok in Hok. apply andb_true_iff in Hok. lia.
Qed.

(** *** The pages the provider sends *)

Lemma or_else_Some (s : string) : or_else (Some s) EmptyString = s.
Proof. now destruct s. Qed.

Lemma or_else_truthy_value (o : option string) (s : string) :
  truthy_value o = Some s -> or_else o EmptyString = s.
Proof.
  unfold truthy_value, truthy. destruct o as [x|]; [|discriminate].
  destruct x; cbn; [discriminate | now intros [= <-]].
Qed.

(** What a page of the provider shows in its hidden fields. *)
Definition page_carries (page state redirectUri codeChallenge : string) : Prop :=
  exists before v1 v2 v3 : string,
    page
    = before
      +:+ HtmlDecode.hiddenInput "state" +:+ v1 +:+ dq +:+ HtmlDecode.betweenFields
      +:+ HtmlDecode.hiddenInput "redirect_uri" +:+ v2 +:+ dq
      +:+ HtmlDecode.betweenFields
      +:+ HtmlDecode.hiddenInput "code_challenge" +:+ v3 +:+ dq
      +:+ HtmlDecode.afterFields
    /\ AuthorizePage.markup v1 = EmptyString
    /\ AuthorizePage.markup v2 = EmptyString
    /\ AuthorizePage.markup v3 = EmptyString
    /\ HtmlDecode.decodeEntities v1 = state
    /\ HtmlDecode.decodeEntities v2 = redirectUri
    /\ HtmlDecode.decodeEntities v3 = codeChallenge.

Lemma generateAuthorizePage_carries (o : AuthorizePage.PageOptions) :
  page_carries (AuthorizePage.generateAuthorizePage o)
    (or_else (AuthorizePage.state o) EmptyString)
    (or_else (AuthorizePage.redirectUri o) EmptyString)
    (or_else (AuthorizePage.codeChallenge o) EmptyString).
Proof. exact (AuthorizePageMore.generateAuthorizePage_fields o). Qed.

(** X21. [authorize] answers with status 200 and stores nothing; the form
    on its page posts back, in hidden fields, the state (empty if there
    was none), the redirect URI and the PKCE challenge of the
    authorization request it was called with. *)
Theorem authorize_form_carries_params
    (this : Provider) (client : Client) (params : AuthorizationParams) :
  exists page,
    authorize client params this = (Returned (Html 200 page), this)
    /\ page_carries page
         (or_else (params_state params) EmptyString)
         (params_redirectUri params)
         (params_codeChallenge params).
Proof.
  unfold authorize. run_method. eexists. split; [reflexivity|].
  match goal with
  | |- page_carries (AuthorizePage.generateAuthorizePage ?o) _ _ _ =>
      pose proof (generateAuthorizePage_carries o) as Hc
  end.
  cbn [AuthorizePage.state AuthorizePage.redirectUri AuthorizePage.codeChallenge] in Hc.
  now rewrite !or_else_Some in Hc.
Qed.

(** X22. The error page of [handleAuthorizeSubmit] lets the user try
    again within the same authorization request: whenever the handler
    answers with a page, the form on it posts back the state, the
    redirect URI and the PKCE challenge that were submitted (empty where
    one was missing). *)
Theorem handleAuthorizeSubmit_error_page_keeps_fields
    (this : Provider) (fetch : Fetch) (req : Body) (code : string) (now : Z)
    (status : Z) (page : string) :
  (handleAuthorizeSubmit fetch req code now this).1 = Returned (Html status page) ->
  page_carries page
    (or_else (body_state req) EmptyString)
    (or_else (redirect_uri req) EmptyString)
    (or_else (code_challenge req) EmptyString).
Proof.
  remember (handleAuthorizeSubmit fetch req code now this) as result eqn:Hres.
  intros Hpage. unfold handleAuthorizeSubmit in Hres.
  assert (Hmissing :
    page_carries
      (AuthorizePage.generateAuthorizePage
         {| AuthorizePage.clientName := Some "Unknown";
            AuthorizePage.scopes := Some [];
            AuthorizePage.state := Some (or_else (body_state req) EmptyString);
            AuthorizePage.redirectUri := Some (or_else (redirect_uri req) EmptyString);
            AuthorizePage.codeChallenge := Some (or_else (code_challenge req) EmptyString);
            AuthorizePage.error := Some "API key is required" |})
      (or_else (body_state req) EmptyString)
      (or_else (redirect_uri req) EmptyString)
      (or_else (code_challenge req) EmptyString)).
  { match goal with
    | |- page_carries (AuthorizePage.generateAuthorizePage ?o) _ _ _ =>
        pose proof (generateAuthorizePage_carries o) as Hc
    end.
    cbn [AuthorizePage.state AuthorizePage.redirectUri AuthorizePage.codeChallenge] in Hc.
    now rewrite !or_else_Some in Hc. }
  destruct (truthy_value (api_key req)) as [k|] eqn:Hk.
  2:{ subst result. cbn in Hpage. now injection Hpage as _ <-. }
  destruct (truthy_value (redirect_uri req)) as [r|] eqn:Hr.
  2:{ subst result. cbn in Hpage. now injection Hpage as _ <-. }
  unfold bind at 1 in Hres. rewrite validateTwentyApiKey_returns in Hres.
  destruct (match fetch _ with Returned response => ok response | Thrown _ => false end);
    cbn [negb] in Hres.
  - exfalso. revert Hres. run_method.
    destruct (newURL r); intros ->; discriminate.
  - subst result. cbn in Hpage. injection Hpage as _ <-.
    match goal with
    | |- page_carries (AuthorizePage.generateAuthorizePage ?o) _ _ _ =>
        pose proof (generateAuthorizePage_carries o) as Hc
    end.
    cbn [AuthorizePage.state AuthorizePage.redirectUri AuthorizePage.codeChallenge] in Hc.
    rewrite !or_else_Some in Hc. now rewrite (or_else_truthy_value _ _ Hr).
Qed.

(** *** Exchanging a code *)

(** X23. Exchanging a code touches nothing but that code and the two
    tokens it mints: however the exchange ends, every other code, every
    access token stored under another text, every refresh token stored
    under another text, the clients and the settings are as before. *)
Theorem exchangeAuthorizationCode_frame
    (this : Provider) (client : Client) (code : string)
    (v rd : option string) (res : option URL) (t t' : Z) (at_ rt : string) :
  let result := exchangeAuthorizationCode client code v rd res t t' at_ rt this in
  (forall code', code' <> code -> _codes result.2 !! code' = _codes this !! code')
  /\ (forall tok, tok <> at_ -> _tokens result.2 !! tok = _tokens this !! tok)
  /\ (forall tok, tok <> rt ->
        _refreshTokens result.2 !! tok = _refreshTokens this !! tok)
  /\ _clients result.2 = _clients this
  /\ same_settings result.2 this.
Proof.
  intros result. subst result.
  destruct (_codes this !! code) as [d|] eqn:E.
  2:{ rewrite exchangeAuthorizationCode_missing by assumption. repeat split. }
  destruct (Z_le_gt_dec t (code_expiresAt d)) as [Hle|Hgt].
  - rewrite (exchangeAuthorizationCode_fresh _ _ _ _ _ _ _ _ _ _ _ E Hle).
    cbn [snd]. unfold exchanged.
    cbn [_codes _tokens _refreshTokens _clients
         with_refreshTokens with_tokens with_codes].
    split; [intros; now rewrite lookup_delete_ne|].
    split; [intros; now rewrite lookup_insert_ne|].
    split; [intros; now rewrite lookup_insert_ne|].
    split; reflexivity.
  - rewrite (exchangeAuthorizationCode_expired _ _ _ _ _ _ _ _ _ _ _ E Hgt).
    cbn [snd _codes _tokens _refreshTokens _clients with_codes].
    split; [intros; now rewrite lookup_delete_ne|].
    repeat split.
Qed.

End WithURL.

End OAuthMore.

(** *** Running the provider further *)

Module OAuthMoreRuns.
Import OAuth OAuthFacts OAuthMore StrictURL.

Definition sample_issued : CodeData :=
  issuedCode sample_provider sample_body "crm-key"
    "https://client.example/callback" 1000.

Lemma registerClient_then_getClient_witness :
  "client-b" <> "client-a"
  /\ (getClient "client-b"
        (registerClient {| client_name := None; redirect_uris := [] |}
           "client-a" "secret-a" 5999 sample_provider).2).1
     = Returned None.
Proof.
  split; [discriminate|].
  destruct (registerClient_then_getClient sample_provider
              {| client_name := None; redirect_uris := [] |}
              "client-a" "secret-a" 5999) as (_ & _ & Hother & _).
  rewrite (Hother "client-b"); [reflexivity | discriminate].
Defined.

Lemma challenge_leaves_code_exchangeable_witness :
  truthy_value (api_key sample_body) = Some "crm-key"
  /\ truthy_value (redirect_uri sample_body) = Some "https://client.example/callback"
  /\ (validateTwentyApiKey (answering 200) "crm-key" sample_provider).1 = Returned true
  /\ 2000 <= 301000
  /\ challengeForAuthorizationCode sample_other "c0de" 2000
       sample_authorized
     = (Returned (Some "challenge"), sample_authorized).
Proof.
  split; [reflexivity|]. split; [reflexivity|]. split; [reflexivity|].
  split; [lia|].
  refine (proj1 (challenge_leaves_code_exchangeable (H := simpleURL)
                   sample_provider (answering 200) sample_body "c0de" 1000
                   "crm-key" "https://client.example/callback" sample_other
                   2000 3000 3000 "access-1" "refresh-1"
                   eq_refl eq_refl eq_refl _ _));
    change (authCodeTTL sample_provider) with 300; lia.
Defined.

Lemma challengeForAuthorizationCode_rejections_witness :
  _codes sample_authorized !! "c0de" = Some sample_issued
  /\ 400000 > code_expiresAt sample_issued
  /\ challengeForAuthorizationCode sample_client "c0de" 400000
       sample_authorized
     = (Thrown "Authorization code expired",
        with_codes (delete "c0de") sample_authorized).
Proof.
  split; [reflexivity|]. split; [reflexivity|].
  destruct (challengeForAuthorizationCode_rejections (H := simpleURL)
              sample_authorized sample_client "c0de" 400000) as [_ Hexpired].
  destruct (Hexpired sample_issued eq_refl) as [Hthrown _]; [reflexivity|].
  exact Hthrown.
Defined.

Lemma minted_token_validity_window_witness :
  _codes sample_authorized !! "c0de" = Some sample_issued
  /\ 2000 <= code_expiresAt sample_issued
  /\ 3602999 / 1000 <= 2000 / 1000 + accessTokenTTL sample_authorized
  /\ (verifyAccessToken (H := simpleURL) "access-1" 3602999 sample_exchanged).1
     = Returned {| info_token := "access-1";
                   info_clientId := "client-a";
                   info_scopes := ["mcp:tools"];
                   info_expiresAt := 3602;
                   info_resource := None;
                   info_extra_twentyApiKey := "crm-key" |}
  /\ (verifyAccessToken (H := simpleURL) "access-1" 3603000 sample_exchanged).1
     = Thrown "Access token expired".
Proof.
  split; [reflexivity|]. split; [vm_compute; discriminate|]. split; [vm_compute; discriminate|].
  destruct (minted_token_validity_window (H := simpleURL) sample_authorized
              sample_client "c0de" sample_issued None None 2000 2000
              "access-1" "refresh-1" 3602999 eq_refl) as [Hin _];
    [vm_compute; discriminate|].
  destruct (minted_token_validity_window (H := simpleURL) sample_authorized
              sample_client "c0de" sample_issued None None 2000 2000
              "access-1" "refresh-1" 3603000 eq_refl) as [_ Hout];
    [vm_compute; discriminate|].
  split.
  - change sample_exchanged
      with (exchangeAuthorizationCode (H := simpleURL) sample_client "c0de"
              None None None 2000 2000 "access-1" "refresh-1" sample_authorized).2.
    rewrite Hin; [reflexivity | vm_compute; discriminate].
  - apply Hout. reflexivity.
Defined.

Lemma cleanup_removes_exactly_expired_witness :
  _tokens sample_exchanged !! "access-1"
  = _tokens (cleanup 3602999 sample_exchanged).2 !! "access-1"
  /\ _tokens (cleanup 3603000 sample_exchanged).2 !! "access-1" = None.
Proof.
  destruct (cleanup_removes_exactly_expired sample_exchanged 3602999)
    as (_ & _ & Hkept & _).
  destruct (cleanup_removes_exactly_expired sample_exchanged 3603000)
    as (_ & _ & Hswept & _).
  split.
  - symmetry. eapply Hkept. split; [reflexivity | vm_compute; discriminate].
  - destruct (_tokens (cleanup 3603000 sample_exchanged).2 !! "access-1")
      as [d|] eqn:E; [|reflexivity].
    apply Hswept in E. destruct E as [E Hle].
    injection E as <-. exfalso. revert Hle. vm_compute. intros Hle. now apply Hle.
Defined.

Lemma cleanup_later_absorbs_witness :
  1000 <= 4000000
  /\ (cleanup 4000000 (cleanup 1000 sample_exchanged).2).2
     = (cleanup 4000000 sample_exchanged).2.
Proof.
  split; [lia|]. apply cleanup_later_absorbs. lia.
Defined.

Lemma cleanup_agrees_with_checks_on_use_witness :
  (verifyAccessToken (H := simpleURL) "access-1" 4000000
     (cleanup 4000000 sample_exchanged).2).1
  <> Thrown "Access token expired".
Proof.
  destruct (cleanup_agrees_with_checks_on_use (H := simpleURL) sample_exchanged
              4000000 sample_client "access-1") as (_ & _ & Hverify & _).
  exact Hverify.
Defined.

Lemma revokeToken_revokes_access_token_witness :
  hint_allows None "access_token" = true
  /\ _tokens (revokeToken sample_client
                {| token := "access-1"; token_type_hint := None |}
                sample_exchanged).2 !! "access-1" = None
  /\ _refreshTokens (revokeToken sample_client
                       {| token := "access-1"; token_type_hint := None |}
                       sample_exchanged).2
     = _refreshTokens sample_exchanged.
Proof.
  split; [reflexivity|].
  destruct (revokeToken_revokes_access_token (H := simpleURL) sample_exchanged
              sample_client "access-1" None _ eq_refl eq_refl eq_refl)
    as (_ & Hgone & _ & _ & Hkept).
  split; assumption.
Defined.

Lemma revokeToken_hint_restricts_witness :
  hint_allows (Some "refresh_token") "access_token" = false
  /\ _tokens (revokeToken sample_client
                {| token := "access-1"; token_type_hint := Some "refresh_token" |}
                sample_exchanged).2
     = _tokens sample_exchanged
  /\ revokeToken sample_client
       {| token := "access-1"; token_type_hint := Some "bearer" |} sample_exchanged
     = (Returned tt, sample_exchanged).
Proof.
  split; [reflexivity|]. split.
  - destruct (revokeToken_hint_restricts sample_exchanged sample_client
                {| token := "access-1"; token_type_hint := Some "refresh_token" |})
      as (Hkeep & _).
    apply Hkeep. reflexivity.
  - destruct (revokeToken_hint_restricts sample_exchanged sample_client
                {| token := "access-1"; token_type_hint := Some "bearer" |})
      as (_ & _ & Hnothing).
    apply Hnothing; reflexivity.
Defined.

Lemma revokeToken_revokes_refresh_token_witness :
  hint_allows (Some "refresh_token") "refresh_token" = true
  /\ _tokens sample_exchanged !! "refresh-1" = None
  /\ exchangeRefreshToken (H := simpleURL) sample_client "refresh-1" None None
       5000 "access-2"
       (revokeToken sample_client
          {| token := "refresh-1"; token_type_hint := Some "refresh_token" |}
          sample_exchanged).2
     = (Thrown "Invalid refresh token",
        (revokeToken sample_client
           {| token := "refresh-1"; token_type_hint := Some "refresh_token" |}
           sample_exchanged).2).
Proof.
  split; [reflexivity|]. split; [reflexivity|].
  destruct (revokeToken_revokes_refresh_token (H := simpleURL) sample_exchanged
              sample_client "refresh-1" (Some "refresh_token") _
              eq_refl eq_refl eq_refl) as (_ & Hinvalid & _).
  - intros d' [=].
  - apply Hinvalid.
Defined.

Definition sample_refreshed : OAuthTokens :=
  {| access_token := "access-2"; token_type := "Bearer"; expires_in := 3600;
     refresh_token := None; scope := "mcp:tools" |}.

Lemma refresh_token_reusable_witness :
  (exchangeRefreshToken (H := simpleURL) sample_client "refresh-1" None None
     5000 "access-2" sample_exchanged).1 = Returned sample_refreshed
  /\ exists tokens',
       (exchangeRefreshToken (H := simpleURL) sample_client "refresh-1" None None
          9000 "access-3"
          (exchangeRefreshToken (H := simpleURL) sample_client "refresh-1" None
             None 5000 "access-2" sample_exchanged).2).1
       = Returned tokens'.
Proof.
  split; [reflexivity|].
  destruct (refresh_token_reusable (H := simpleURL) sample_exchanged sample_client
              "refresh-1" None None 5000 "access-2" sample_refreshed eq_refl)
    as (d & Hd & _ & _ & _ & _ & _ & Hagain).
  apply Hagain. injection Hd as <-. vm_compute. discriminate.
Defined.

Lemma refreshed_token_binding_witness :
  0 <= accessTokenTTL sample_exchanged
  /\ (exchangeRefreshToken (H := simpleURL) sample_client "refresh-1" None None
        5000 "access-2" sample_exchanged).1 = Returned sample_refreshed
  /\ exists info,
       verifyAccessToken (H := simpleURL) "access-2" 5000
         (exchangeRefreshToken (H := simpleURL) sample_client "refresh-1" None
            None 5000 "access-2" sample_exchanged).2
       = (Returned info,
          (exchangeRefreshToken (H := simpleURL) sample_client "refresh-1" None
             None 5000 "access-2" sample_exchanged).2)
       /\ info_extra_twentyApiKey info = "crm-key".
Proof.
  split; [vm_compute; discriminate|]. split; [reflexivity|].
  destruct (refreshed_token_binding (H := simpleURL) sample_exchanged sample_client
              "refresh-1" None 5000 "access-2" sample_refreshed)
    as (d & td & Hd & _ & _ & _ & _ & _ & _ & info & Hverify & Hkey & _);
    [vm_compute; discriminate | reflexivity |].
  exists info. split; [exact Hverify|].
  rewrite Hkey. now injection Hd as <-.
Defined.

Lemma reachable_scopes_granted_witness :
  reachable (H := simpleURL) sample_exchanged
  /\ forall t d s,
       _tokens sample_exchanged !! t = Some d -> s ∈ tok_scopes d -> s = "mcp:tools".
Proof.
  split; [exact OAuthRuns.sample_exchanged_reachable|].
  exact (proj2 (proj2 (reachable_scopes_granted (H := simpleURL) sample_exchanged
                         OAuthRuns.sample_exchanged_reachable))).
Defined.

Lemma getApiKeyForToken_known_witness :
  reachable (H := simpleURL) sample_exchanged
  /\ getApiKeyForToken sample_exchanged "access-1" = Some "crm-key".
Proof.
  split; [exact OAuthRuns.sample_exchanged_reachable|].
  rewrite (getApiKeyForToken_known (H := simpleURL) sample_exchanged "access-1"
             OAuthRuns.sample_exchanged_reachable).
  reflexivity.
Defined.


Lemma handleAuthorizeSubmit_outcomes_witness :
  (handleAuthorizeSubmit (H := simpleURL) (answering 200) sample_body "c0de" 1000
     sample_provider).1
  = Returned (Redirect "https://client.example/callback?code=c0de&state=xyz")
  /\ (handleAuthorizeSubmit (H := simpleURL) (answering 401) sample_body "c0de" 1000
        sample_provider).2
     = sample_provider.
Proof.
  split; [reflexivity|].
  destruct (handleAuthorizeSubmit_outcomes (H := simpleURL) sample_provider
              (answering 401) sample_body "c0de" 1000) as (Hpage & _).
  destruct (Hpage 400 _ eq_refl) as [_ Hsame]. exact Hsame.
Defined.

Lemma handleAuthorizeSubmit_bad_redirect_keeps_code_witness :
  truthy_value (api_key sample_bad_body) = Some "crm-key"
  /\ truthy_value (redirect_uri sample_bad_body) = Some "not a url"
  /\ (validateTwentyApiKey (answering 200) "crm-key" sample_provider).1
     = Returned true
  /\ newURL (URLApi := httpsURL) "not a url" = None
  /\ exists message,
       (handleAuthorizeSubmit (H := httpsURL) (answering 200) sample_bad_body
          "c0de" 1000 sample_provider).1 = Thrown message.
Proof.
  split; [reflexivity|]. split; [reflexivity|]. split; [reflexivity|].
  split; [reflexivity|].
  exact (proj1 (handleAuthorizeSubmit_bad_redirect_keeps_code (H := httpsURL)
                  sample_provider (answering 200) sample_bad_body "c0de" 1000
                  "crm-key" "not a url" eq_refl eq_refl eq_refl eq_refl)).
Defined.

Lemma handleAuthorizeSubmit_error_page_keeps_fields_witness :
  (handleAuthorizeSubmit (H := simpleURL) (answering 401) sample_body "c0de" 1000
     sample_provider).1
  = Returned (Html 400 (AuthorizePage.generateAuthorizePage
      {| AuthorizePage.clientName := Some "Unknown";
         AuthorizePage.scopes := Some [];
         AuthorizePage.state := Some "xyz";
         AuthorizePage.redirectUri := Some "https://client.example/callback";
         AuthorizePage.codeChallenge := Some "challenge";
         AuthorizePage.error :=
           Some "Invalid API key. Please check your Twenty CRM API key and try again." |}))
  /\ page_carries
       (AuthorizePage.generateAuthorizePage
          {| AuthorizePage.clientName := Some "Unknown";
             AuthorizePage.scopes := Some [];
             AuthorizePage.state := Some "xyz";
             AuthorizePage.redirectUri := Some "https://client.example/callback";
             AuthorizePage.codeChallenge := Some "challenge";
             AuthorizePage.error :=
               Some "Invalid API key. Please check your Twenty CRM API key and try again." |})
       "xyz" "https://client.example/callback" "challenge".
Proof.
  split; [reflexivity|].
  exact (handleAuthorizeSubmit_error_page_keeps_fields (H := simpleURL)
           sample_provider (answering 401) sample_body "c0de" 1000 400 _ eq_refl).
Defined.

Lemma validateTwentyApiKey_never_throws_witness :
  exists valid : bool,
    validateTwentyApiKey (answering 200) "crm-key" sample_provider
    = (Returned valid, sample_provider)
    /\ (valid = true ->
        exists response,
          answering 200
            {| req_url := twentyBaseUrl sample_provider +:+ "/rest/people?limit=1";
               req_method := "GET";
               req_headers := [("Authorization", "Bearer " +:+ "crm-key");
                               ("Content-Type", "application/json")] |}
          = Returned response
          /\ 200 <= status response <= 299).
Proof.
  exact (validateTwentyApiKey_never_throws sample_provider (answering 200) "crm-key").
Defined.

Lemma exchangeAuthorizationCode_frame_witness :
  "access-1" <> "access-7"
  /\ _tokens (exchangeAuthorizationCode (H := simpleURL) sample_other "c0de"
                None None None 2000 2000 "access-7" "refresh-7"
                sample_exchanged).2 !! "access-1"
     = _tokens sample_exchanged !! "access-1".
Proof.
  split; [discriminate|].
  destruct (exchangeAuthorizationCode_frame (H := simpleURL) sample_exchanged
              sample_other "c0de" None None None 2000 2000 "access-7" "refresh-7")
    as (_ & Htokens & _).
  apply Htokens. discriminate.
Defined.

End OAuthMoreRuns.

(** ** More on the desktop proxy *)

Module DesktopProxyMore.
Import DesktopProxy DesktopProxyStartup.

Lemma getRemoteClient_cached connect this client :
  remoteClient this = Some client ->
  getRemoteClient connect this = (Fulfilled client, this).
Proof. intros E. unfold getRemoteClient. now rewrite E. Qed.

Lemma getRemoteClient_fresh connect this :
  remoteClient this = None ->
  getRemoteClient connect this
  = match connect (serverUrl this) (apiKey this) with
    | Fulfilled client =>
        (Fulfilled client,
         {| serverUrl := serverUrl this; apiKey := apiKey this;
            remoteClient := Some client |})
    | Rejected e => (Rejected e, this)
    end.
Proof.
  intros E. unfold getRemoteClient, await, createRemoteClient. rewrite E.
  now destruct (connect _ _).
Qed.

(** X24. The proxy connects to the remote server at most once: a proxy
    that holds a client hands it out without connecting, a successful
    connection is kept for all later requests, and a failed connection is
    not remembered, so that the next request tries again. *)
Theorem getRemoteClient_connects_once
    (connect : string -> string -> attempt Client) (this : TwentyCRMProxy) :
  (forall client,
     remoteClient this = Some client ->
     getRemoteClient connect this = (Fulfilled client, this))
  /\ (forall client this',
        getRemoteClient connect this = (Fulfilled client, this') ->
        remoteClient this' = Some client
        /\ serverUrl this' = serverUrl this
        /\ apiKey this' = apiKey this
        /\ forall connect', getRemoteClient connect' this' = (Fulfilled client, this'))
  /\ (forall error this',
        getRemoteClient connect this = (Rejected error, this') ->
        this' = this
        /\ remoteClient this = None
        /\ connect (serverUrl this) (apiKey this) = Rejected error).
Proof.
  split; [intros client; apply getRemoteClient_cached|].
  destruct (remoteClient this) as [c|] eqn:E.
  - rewrite (getRemoteClient_cached connect this c E). split.
    + intros client this' [= <- <-].
      repeat split; try assumption;
        try (intros connect'; now apply getRemoteClient_cached).
    + discriminate.
  - rewrite (getRemoteClient_fresh connect this E).
    destruct (connect (serverUrl this) (apiKey this)) as [c|e]; split.
    + intros client this' [= <- <-]. cbn.
      repeat split; try (intros connect'; now apply getRemoteClient_cached).
    + discriminate.
    + discriminate.
    + intros error this' [= <- <-]. repeat split.
Qed.

Lemma getRemoteClient_connects_once_witness :
  remoteClient (sample_proxy (Some echo_client)) = Some echo_client
  /\ getRemoteClient (fun _ _ => Rejected (OtherValue "offline"))
       (sample_proxy (Some echo_client))
     = (Fulfilled echo_client, sample_proxy (Some echo_client)).
Proof.
  split; [reflexivity|].
  exact (proj1 (getRemoteClient_connects_once
                  (fun _ _ => Rejected (OtherValue "offline"))
                  (sample_proxy (Some echo_client))) echo_client eq_refl).
Defined.

Lemma callToolHandler_connected connect params this client :
  remoteClient this = Some client ->
  callToolHandler connect params this
  = (match callTool client (name params) (args_or_empty params) with
     | Fulfilled result => Fulfilled result
     | Rejected error =>
         Fulfilled {| content := [TextContent ("Error: " +:+ errorMessage error)];
                      isError := Some true |}
     end, this).
Proof.
  intros E. unfold callToolHandler, try_catch, callRemoteTool, await, resolve.
  rewrite (getRemoteClient_cached connect this client E).
  now destruct (callTool client _ _).
Qed.

(** X25. With a connected proxy the handler passes on what the remote
    call gives, unchanged, also a result the remote server itself marked
    as an error; it calls the tool by the requested name with the given
    arguments (an empty object when there are none), does not connect
    again and leaves the proxy as it is. *)
Theorem callToolHandler_forwards_verbatim
    (connect : string -> string -> attempt Client)
    (params : CallToolParams) (this : TwentyCRMProxy) (client : Client)
    (result : CallToolResult) :
  remoteClient this = Some client ->
  callTool client (name params)
    (match arguments params with Some args => args | None => [] end)
  = Fulfilled result ->
  forall connect', callToolHandler connect' params this = (Fulfilled result, this).
Proof.
  intros E Hcall connect'.
  rewrite (callToolHandler_connected connect' params this client E).
  unfold args_or_empty. now rewrite Hcall.
Qed.

Lemma callToolHandler_forwards_verbatim_witness :
  remoteClient (sample_proxy (Some echo_client)) = Some echo_client
  /\ callTool echo_client "list_people" []
     = Fulfilled {| content := [TextContent "list_people"]; isError := None |}
  /\ callToolHandler (fun _ _ => Rejected (OtherValue "offline")) sample_params
       (sample_proxy (Some echo_client))
     = (Fulfilled {| content := [TextContent "list_people"]; isError := None |},
        sample_proxy (Some echo_client)).
Proof.
  split; [reflexivity|]. split; [reflexivity|].
  exact (callToolHandler_forwards_verbatim (fun _ _ => Fulfilled echo_client)
           sample_params (sample_proxy (Some echo_client)) echo_client _
           eq_refl eq_refl _).
Defined.

(** *** Startup *)

Section Startup.
Variable connect : string -> string -> attempt Client.
Variable listTools : Client -> attempt (option (list Tool)).
Variable serverConnect : attempt unit.

(** How [main] ends once both variables are set. *)
Lemma main_configured (url key u k : string) :
  OAuth.truthy_value (Some url) = Some u ->
  OAuth.truthy_value (Some key) = Some k ->
  main connect listTools serverConnect (Some url) (Some key)
  = match connect u k with
    | Rejected _ => Exit 1
    | Fulfilled client =>
        match listTools client with
        | Rejected _ => Exit 1
        | Fulfilled tools =>
            match serverConnect with
            | Rejected _ => Exit 1
            | Fulfilled _ =>
                Serving
                  {| listToolsHandler :=
                       match tools with Some l => l | None => [] end;
                     callToolRequestHandler := callToolHandler connect |}
                  {| serverUrl := u; apiKey := k; remoteClient := Some client |}
            end
        end
    end.
Proof.
  intros Hu Hk. unfold main. rewrite Hu, Hk.
  unfold initializeServer, discoverRemoteTools, await.
  rewrite getRemoteClient_fresh by reflexivity. cbn [serverUrl apiKey].
  destruct (connect u k) as [client|e]; [|reflexivity].
  destruct (listTools client) as [tools|e]; [|reflexivity].
  now destruct serverConnect.
Qed.

Lemma main_unconfigured (REMOTE_MCP_URL TWENTY_API_KEY : option string) :
  truthy REMOTE_MCP_URL = false \/ truthy TWENTY_API_KEY = false ->
  main connect listTools serverConnect REMOTE_MCP_URL TWENTY_API_KEY = Exit 1.
Proof.
  intros Hmissing. unfold main, OAuth.truthy_value.
  destruct (truthy REMOTE_MCP_URL) eqn:Eu; [|reflexivity].
  destruct REMOTE_MCP_URL as [url|]; [|reflexivity].
  destruct (truthy TWENTY_API_KEY) eqn:Ek; [|reflexivity].
  destruct Hmissing; discriminate.
Qed.

Lemma truthy_Some (o : option string) :
  truthy o = true -> exists s, o = Some s /\ OAuth.truthy_value o = Some s.
Proof.
  intros Ht. unfold OAuth.truthy_value. rewrite Ht.
  destruct o as [s|]; [eauto | discriminate].
Qed.

(** X26. [main] never leaves the process running half started. If
    [REMOTE_MCP_URL] or [TWENTY_API_KEY] is unset or empty it exits with
    code 1 without connecting; if connecting, listing the remote tools or
    attaching to stdio fails it exits with code 1; otherwise it serves,
    with the tool list the remote server gave at startup (an empty list
    if it gave none) and with the connection kept in the proxy. *)
Theorem main_exits_or_serves (REMOTE_MCP_URL TWENTY_API_KEY : option string) :
  let outcome := main connect listTools serverConnect REMOTE_MCP_URL TWENTY_API_KEY in
  (truthy REMOTE_MCP_URL = false \/ truthy TWENTY_API_KEY = false ->
     outcome = Exit 1)
  /\ (outcome = Exit 1 \/ exists server proxy, outcome = Serving server proxy)
  /\ (forall server proxy,
        outcome = Serving server proxy ->
        exists url key client tools,
          REMOTE_MCP_URL = Some url
          /\ TWENTY_API_KEY = Some key
          /\ connect url key = Fulfilled client
          /\ listTools client = Fulfilled tools
          /\ serverConnect = Fulfilled tt
          /\ listToolsHandler server = match tools with Some l => l | None => [] end
          /\ proxy = {| serverUrl := url; apiKey := key;
                        remoteClient := Some client |}).
Proof.
  intros outcome. subst outcome.
  split; [apply main_unconfigured|].
  destruct (truthy REMOTE_MCP_URL) eqn:Eu.
  2:{ rewrite main_unconfigured by now left.
      split; [now left | discriminate]. }
  destruct (truthy TWENTY_API_KEY) eqn:Ek.
  2:{ rewrite main_unconfigured by now right.
      split; [now left | discriminate]. }
  destruct (truthy_Some _ Eu) as (url & -> & Hu).
  destruct (truthy_Some _ Ek) as (key & -> & Hk).
  rewrite (main_configured url key url key Hu Hk).
  destruct (connect url key) as [client|e] eqn:Ec;
    [|split; [now left | discriminate]].
  destruct (listTools client) as [tools|e] eqn:El;
    [|split; [now left | discriminate]].
  destruct serverConnect as [[]|e] eqn:Es;
    [|split; [now left | discriminate]].
  split; [right; eauto|].
  intros server proxy [= <- <-].
  exists url, key, client, tools. repeat split; assumption.
Qed.

(** X27. Once [main] serves, every tool call gets an answer: the
    handler the server was given never rejects, whatever the remote
    server does later, and it leaves the proxy, with its one connection,
    as it is. *)
Theorem serving_answers_every_call
    (REMOTE_MCP_URL TWENTY_API_KEY : option string)
    (server : Server) (proxy : TwentyCRMProxy) (params : CallToolParams) :
  main connect listTools serverConnect REMOTE_MCP_URL TWENTY_API_KEY
  = Serving server proxy ->
  exists result,
    callToolRequestHandler server params proxy = (Fulfilled result, proxy).
Proof.
  intros Hmain.
  destruct REMOTE_MCP_URL as [url|]; [|discriminate].
  destruct TWENTY_API_KEY as [key|].
  2:{ unfold main in Hmain. destruct (OAuth.truthy_value (Some url)); discriminate. }
  destruct (OAuth.truthy_value (Some url)) as [u|] eqn:Hu.
  2:{ unfold main in Hmain. rewrite Hu in Hmain. discriminate. }
  destruct (OAuth.truthy_value (Some key)) as [k|] eqn:Hk.
  2:{ unfold main in Hmain. rewrite Hu, Hk in Hmain. discriminate. }
  rewrite (main_configured url key u k Hu Hk) in Hmain.
  destruct (connect u k) as [client|e]; [|discriminate].
  destruct (listTools client) as [tools|e]; [|discriminate].
  destruct serverConnect as [[]|e]; [|discriminate].
  injection Hmain as <- <-. cbn [callToolRequestHandler].
  rewrite (callToolHandler_connected connect params
             {| serverUrl := u; apiKey := k; remoteClient := Some client |}
             client eq_refl).
  destruct (callTool client _ _); eauto.
Qed.

End Startup.

Definition sample_remote_tools : list Tool :=
  [{| tool_name := "list_people"; tool_inputSchema := "{}" |}].

Lemma main_exits_or_serves_witness :
  truthy (Some EmptyString) = false
  /\ main (fun _ _ => Fulfilled echo_client)
       (fun _ => Fulfilled (Some sample_remote_tools)) (Fulfilled tt)
       (Some EmptyString) (Some "crm-key")
     = Exit 1.
Proof.
  split; [reflexivity|].
  apply (main_exits_or_serves (fun _ _ => Fulfilled echo_client)
           (fun _ => Fulfilled (Some sample_remote_tools)) (Fulfilled tt)
           (Some EmptyString) (Some "crm-key")).
  now left.
Defined.

Lemma serving_answers_every_call_witness :
  main (fun _ _ => Fulfilled failing_client)
    (fun _ => Fulfilled (Some sample_remote_tools)) (Fulfilled tt)
    (Some "https://mcp.example/stream") (Some "crm-key")
  = Serving {| listToolsHandler := sample_remote_tools;
               callToolRequestHandler :=
                 callToolHandler (fun _ _ => Fulfilled failing_client) |}
      (sample_proxy (Some failing_client))
  /\ exists result,
       callToolHandler (fun _ _ => Fulfilled failing_client) sample_params
         (sample_proxy (Some failing_client))
       = (Fulfilled result, sample_proxy (Some failing_client)).
Proof.
  split; [reflexivity|].
  exact (serving_answers_every_call (fun _ _ => Fulfilled failing_client)
           (fun _ => Fulfilled (Some sample_remote_tools)) (Fulfilled tt)
           (Some "https://mcp.example/stream") (Some "crm-key") _ _
           sample_params eq_refl).
Defined.

End DesktopProxyMore.

(** ** Identifiers, secrets and tokens *)

Module EntropyFacts.
Import Entropy HtmlDecode.
Local Open Scope nat_scope.

Lemma all_chars_impl (P Q : ascii -> bool) (s : string) :
  (forall c, P c = true -> Q c = true) ->
  all_chars P s = true -> all_chars Q s = true.
Proof.
  intros HPQ. induction s as [|c s IH]; [reflexivity|].
  cbn [all_chars]. intros [Hc Hs]%andb_true_iff.
  apply andb_true_iff. auto.
Qed.

Lemma hex_plain (c : ascii) :
  occurs c hexDigits = true -> negb (is_special c) = true.
Proof.
  destruct c as [[] [] [] [] [] [] [] []]; vm_compute; intros E;
    first [reflexivity | discriminate E].
Qed.

Lemma base64url_plain (c : ascii) :
  occurs c base64urlAlphabet = true -> negb (is_special c) = true.
Proof.
  destruct c as [[] [] [] [] [] [] [] []]; vm_compute; intros E;
    first [reflexivity | discriminate E].
Qed.

Lemma toStringHex_length (buffer : list Byte.byte) :
  String.length (toStringHex buffer) = 2 * length buffer.
Proof.
  induction buffer as [|b rest IH]; [reflexivity|].
  cbn [toStringHex String.length length]. rewrite IH. lia.
Qed.

Lemma toStringHex_digits (buffer : list Byte.byte) :
  all_chars (fun c => occurs c hexDigits) (toStringHex buffer) = true.
Proof.
  induction buffer as [|b rest IH]; [reflexivity|].
  cbn [toStringHex all_chars]. rewrite IH.
  destruct b; reflexivity.
Qed.

Lemma fromHex_cons (b : Byte.byte) (rest : list Byte.byte) :
  fromHex (toStringHex (b :: rest))
  = match fromHex (toStringHex rest) with
    | Some bytes => Some (b :: bytes)
    | None => None
    end.
Proof. destruct b; reflexivity. Qed.

Lemma fromHex_toStringHex (buffer : list Byte.byte) :
  fromHex (toStringHex buffer) = Some buffer.
Proof.
  induction buffer as [|b rest IH]; [reflexivity|].
  now rewrite fromHex_cons, IH.
Qed.

(** X28. A client identifier and an authorization code are 32
    characters long and a client secret 64, all of them lowercase
    hexadecimal digits; such a text is not empty and passes through
    [escapeHtml] unchanged. *)
Theorem generateId_format (randomBytes : nat -> list Byte.byte) :
  length (randomBytes 16) = 16 ->
  length (randomBytes 32) = 32 ->
  String.length (generateId randomBytes) = 32
  /\ String.length (generateSecret randomBytes) = 64
  /\ all_chars (fun c => occurs c hexDigits) (generateId randomBytes) = true
  /\ all_chars (fun c => occurs c hexDigits) (generateSecret randomBytes) = true
  /\ truthy (Some (generateId randomBytes)) = true
  /\ AuthorizePage.escapeHtml (Some (generateId randomBytes))
     = generateId randomBytes.
Proof.
  intros H16 H32. unfold generateId, generateSecret.
  split; [rewrite toStringHex_length, H16; reflexivity|].
  split; [rewrite toStringHex_length, H32; reflexivity|].
  split; [apply toStringHex_digits|]. split; [apply toStringHex_digits|].
  split.
  - destruct (randomBytes 16) as [|b rest]; [discriminate|reflexivity].
  - apply AuthorizePageMore.escapeHtml_plain.
    apply (all_chars_impl (fun c => occurs c hexDigits)); [apply hex_plain|].
    apply toStringHex_digits.
Qed.

(** X29. The hexadecimal text determines the bytes: reading an
    identifier back gives the random bytes it was made from, so two
    draws of the entropy source give the same identifier only if they
    gave the same bytes. *)
Theorem generateId_injective (randomBytes randomBytes' : nat -> list Byte.byte) :
  fromHex (generateId randomBytes) = Some (randomBytes 16)
  /\ (generateId randomBytes = generateId randomBytes' ->
      randomBytes 16 = randomBytes' 16).
Proof.
  unfold generateId. split; [apply fromHex_toStringHex|].
  intros E. apply (f_equal fromHex) in E.
  rewrite !fromHex_toStringHex in E. now injection E.
Qed.

Lemma charAt_base64url (x : N) :
  (x < 64)%N -> occurs (charAt base64urlAlphabet x) base64urlAlphabet = true.
Proof.
  intros Hx. unfold charAt.
  assert (Hi : N.to_nat x < 64) by lia.
  remember (N.to_nat x) as i eqn:Ei. clear Ei Hx x.
  do 64 (destruct i as [|i]; [reflexivity|]). lia.
Qed.

Lemma toStringBase64url_chars_upto (n : nat) (buffer : list Byte.byte) :
  length buffer <= n ->
  all_chars (fun c => occurs c base64urlAlphabet) (toStringBase64url buffer) = true
  /\ String.length (toStringBase64url buffer) = (4 * length buffer + 2) / 3.
Proof.
  revert buffer. induction n as [|n IH]; intros buffer Hlen.
  { destruct buffer; [split; reflexivity | cbn in Hlen; lia]. }
  destruct buffer as [|a [|b [|c rest]]].
  - split; reflexivity.
  - pose proof (Byte.to_N_bounded a).
    cbn [toStringBase64url all_chars String.length].
    rewrite !charAt_base64url; [split; reflexivity | |].
    + pose proof (N.mod_lt (Byte.to_N a) 4). lia.
    + apply N.Div0.div_lt_upper_bound; lia.
  - pose proof (Byte.to_N_bounded a). pose proof (Byte.to_N_bounded b).
    cbn [toStringBase64url all_chars String.length].
    rewrite !charAt_base64url; [split; reflexivity | | |].
    + pose proof (N.mod_lt (Byte.to_N a * 256 + Byte.to_N b) 16). lia.
    + apply N.mod_lt. lia.
    + apply N.Div0.div_lt_upper_bound; lia.
  - pose proof (Byte.to_N_bounded a). pose proof (Byte.to_N_bounded b).
    pose proof (Byte.to_N_bounded c).
    destruct (IH rest) as [Hchars Hlength]; [cbn in Hlen; lia|].
    cbn [toStringBase64url all_chars String.length length].
    rewrite Hchars, Hlength.
    rewrite !charAt_base64url.
    + split; [reflexivity|].
      replace (4 * S (S (S (length rest))) + 2) with (4 * length rest + 2 + 4 * 3) by lia.
      rewrite Nat.div_add by lia. lia.
    + apply N.mod_lt. lia.
    + apply N.mod_lt. lia.
    + apply N.mod_lt. lia.
    + apply N.Div0.div_lt_upper_bound; lia.
Qed.

(** X30. An access or refresh token is 43 characters long, each of them
    a letter, a digit, [-] or [_]; such a text is not empty and passes
    through [escapeHtml] unchanged. In general [base64url] gives four
    characters for every three bytes, rounded up, without padding. *)
Theorem generateToken_format (randomBytes : nat -> list Byte.byte) :
  length (randomBytes 32) = 32 ->
  String.length (generateToken randomBytes) = 43
  /\ all_chars (fun c => occurs c base64urlAlphabet) (generateToken randomBytes) = true
  /\ truthy (Some (generateToken randomBytes)) = true
  /\ AuthorizePage.escapeHtml (Some (generateToken randomBytes))
     = generateToken randomBytes
  /\ (forall buffer,
        String.length (toStringBase64url buffer) = (4 * length buffer + 2) / 3).
Proof.
  intros H32. unfold generateToken.
  destruct (toStringBase64url_chars_upto _ (randomBytes 32) (le_n _))
    as [Hchars Hlength].
  split; [rewrite Hlength, H32; reflexivity|].
  split; [exact Hchars|].
  split.
  { destruct (toStringBase64url (randomBytes 32)); [|reflexivity].
    rewrite H32 in Hlength. discriminate Hlength. }
  split.
  { apply AuthorizePageMore.escapeHtml_plain.
    apply (all_chars_impl (fun c => occurs c base64urlAlphabet));
      [apply base64url_plain | exact Hchars]. }
  intros buffer. exact (proj2 (toStringBase64url_chars_upto _ buffer (le_n _))).
Qed.

(** Thirty-two bytes counting up from zero, and sixteen of them. *)
Definition counting (size : nat) : list Byte.byte :=
  flat_map (fun i => match Byte.of_nat i with Some b => [b] | None => [] end)
    (seq 0 size).

Example generateId_counting :
  generateId counting = "000102030405060708090a0b0c0d0e0f".
Proof. reflexivity. Qed.

Example generateToken_counting :
  generateToken counting = "AAECAwQFBgcICQoLDA0ODxAREhMUFRYXGBkaGxwdHh8".
Proof. reflexivity. Qed.

Lemma generateId_format_witness :
  length (counting 16) = 16
  /\ length (counting 32) = 32
  /\ String.length (generateId counting) = 32.
Proof.
  split; [reflexivity|]. split; [reflexivity|].
  exact (proj1 (generateId_format counting eq_refl eq_refl)).
Defined.

Lemma generateId_injective_witness :
  generateId counting = generateId counting /\ counting 16 = counting 16.
Proof.
  split; [reflexivity|].
  exact (proj2 (generateId_injective counting counting) eq_refl).
Defined.

Lemma generateToken_format_witness :
  length (counting 32) = 32 /\ String.length (generateToken counting) = 43.
Proof.
  split; [reflexivity|].
  exact (proj1 (generateToken_format counting eq_refl)).
Defined.

End EntropyFacts.
